(** * Median degree of a transaction graph over a rolling 60 second window

    A shallow embedding of [median_degree.py] and the properties of its
    windowed graph engine.

    Modelling choices:
    - [re.search] and [int] are Python's: a line of the input is what the
      regular expression of [edge_from_str] finds on it, with what [int]
      makes of the six fields of the time; the construction of the
      [datetime] from these numbers, with its [ValueError], is modelled;
    - a [datetime] is the number of seconds from 0001-01-01T00:00:00, the
      least [datetime] there is, to it, so that [(a - b).total_seconds()] is
      [a - b], and [a - timedelta(seconds=k)] is [a - k] or, below zero, an
      [OverflowError];
    - the two dictionaries [edges] and [nodes] are finite maps ([gmap]); the
      order in which [edges] is walked by the eviction is the one of
      [map_to_list], the result not depending on it;
    - Python numbers holding the median (an [int], or the [float] produced by
      the true division of [statistics.median]) are exact rationals in reduced
      form; the program only ever stores integers and half-integers there, on
      which the floating point operations of the formatting line are exact;
    - a raised exception ends the run; the lines written before it stay
      written;
    - the [while] loop of step 3 is a function with fuel, since it need not
      terminate. *)

From Stdlib Require Import QArith Qreduction Qround.
From stdpp Require Import gmap strings list fin_maps sorting pretty.

Local Open Scope string_scope.
Local Open Scope list_scope.
Local Open Scope Z_scope.

(** ** Exceptions *)

Inductive exn := KeyError | StatisticsError | ValueError | OverflowError.

Inductive result (A : Type) :=
| Ok (a : A)
| Raise (e : exn).
Arguments Ok {A} a.
Arguments Raise {A} e.

Global Instance exn_eq_dec : EqDecision exn.
Proof. solve_decision. Defined.

Global Instance result_eq_dec {A} `{EqDecision A} : EqDecision (result A).
Proof. solve_decision. Defined.

Global Instance result_ret : MRet result := λ A a, Ok a.
Global Instance result_bind : MBind result := λ A B k r,
  match r with
  | Ok a => k a
  | Raise e => Raise e
  end.

(** ** Dates *)

(** The six numbers of a time: [int(time_str[:4])], [int(time_str[5:7])] and
    so on. *)
Record fields := Fields {
  year : Z; month : Z; day : Z; hour : Z; minute : Z; second : Z
}.

Definition is_leap (year : Z) : bool :=
  (year mod 4 =? 0) && (negb (year mod 100 =? 0) || (year mod 400 =? 0)).

Definition days_in_month (year month : Z) : Z :=
  if (month =? 2) && is_leap year then 29
  else match month with
       | 1 | 3 | 5 | 7 | 8 | 10 | 12 => 31
       | 4 | 6 | 9 | 11 => 30
       | 2 => 28
       | _ => - 1
       end.

Definition days_before_year (year : Z) : Z :=
  let y := year - 1 in
  y * 365 + y / 4 - y / 100 + y / 400.

Definition days_before_month (year month : Z) : Z :=
  match month with
  | 1 => 0 | 2 => 31 | 3 => 59 | 4 => 90 | 5 => 120 | 6 => 151
  | 7 => 181 | 8 => 212 | 9 => 243 | 10 => 273 | 11 => 304 | 12 => 334
  | _ => - 1
  end + (if (2 <? month) && is_leap year then 1 else 0).

(** [datetime(year, month, day, hour, minute, second)]: [ValueError] when a
    number is out of its range; otherwise the time, in seconds from
    0001-01-01T00:00:00. *)
Definition datetime (f : fields) : result Z :=
  if negb ((1 <=? year f) && (year f <=? 9999)) then Raise ValueError
  else if negb ((1 <=? month f) && (month f <=? 12)) then Raise ValueError
  else if negb ((1 <=? day f)
                && (day f <=? days_in_month (year f) (month f)))
  then Raise ValueError
  else if negb ((0 <=? hour f) && (hour f <=? 23)) then Raise ValueError
  else if negb ((0 <=? minute f) && (minute f <=? 59)) then Raise ValueError
  else if negb ((0 <=? second f) && (second f <=? 59)) then Raise ValueError
  else
    let ordinal := days_before_year (year f)
                   + days_before_month (year f) (month f) + day f in
    Ok ((ordinal - 1) * 86400 + hour f * 3600 + minute f * 60 + second f).

(** ** Input lines and [edge_from_str] *)

(** What [re.search] finds on a line: nothing, or the three groups, the
    first of them as the numbers [int] reads in its six fields, or none when
    [int] raises [ValueError] on one of them. *)
Inductive line :=
| Unmatched
| Matched (time_ints : option fields) (target actor : string).

Abbreviation edge := (string * string)%type.

(** [tuple(sorted([target, actor]))]: the sort is stable, so the two are
    swapped only when [actor < target]. *)
Definition sorted_pair (target actor : string) : edge :=
  if String.ltb actor target then (actor, target) else (target, actor).

(** Truth value of a Python string: false exactly for the empty one. *)
Definition truthy (s : string) : bool :=
  match s with
  | EmptyString => false
  | String _ _ => true
  end.

(** The time is built only when target and actor are found. *)
Definition edge_from_str (line_str : line) : result (option (edge * Z)) :=
  match line_str with
  | Matched time_ints target actor =>
      if truthy target && truthy actor
      then
        match time_ints with
        | Some f =>
            time_obj ← datetime f;
            Ok (Some (sorted_pair target actor, time_obj))
        | None => Raise ValueError
        end
      else Ok None
  | Unmatched => Ok None
  end.

(** ** [statistics.median] and the output format *)

(** [statistics.median]: sort, then the middle item, or the mean of the two
    middle items; empty data raises. *)
Definition median (data : list Z) : result Q :=
  let data := merge_sort Z.le data in
  let n := length data in
  if (n =? 0)%nat then Raise StatisticsError
  else if (n mod 2 =? 1)%nat then Ok (inject_Z (nth (n / 2)%nat data 0))
  else
    let i := (n / 2)%nat in
    Ok (Qred (Qmake (nth (i - 1)%nat data 0 + nth i data 0) 2)).

(** [int(x)]: truncation toward zero. *)
Definition py_int (x : Q) : Z := Z.quot (Qnum x) (Zpos (Qden x)).

Definition digit (d : Z) : string := pretty (Z.to_N d).

(** ['%.2f' % (k/100)] for an integer [k]. *)
Definition fmt2 (k : Z) : string :=
  let a := Z.abs k in
  (if k <? 0 then "-" else "") +:+
  pretty (Z.to_N (a / 100)) +:+ "." +:+
  digit (a mod 100 / 10) +:+ digit (a mod 10).

Definition CRLF : string :=
  String (Ascii.ascii_of_nat 13) (String (Ascii.ascii_of_nat 10) EmptyString).

(** ['%.2f' % (int(median_degree*100)/100) + '\r\n'] *)
Definition format_median (median_degree : Q) : string :=
  fmt2 (py_int (median_degree * inject_Z 100)) +:+ CRLF.

(** ** The graph *)

Definition time_window : Z := 60.

Record state := State {
  latest_time : Z;
  edges : gmap edge Z;
  nodes : gmap string Z;
  median_degree : Q;
  med_degree_str : string
}.

(** [if node in nodes: nodes[node] += 1 else: nodes[node] = 1] *)
Definition bump (node : string) (nodes : gmap string Z) : gmap string Z :=
  match nodes !! node with
  | Some d => <[node := d + 1]> nodes
  | None => <[node := 1]> nodes
  end.

(** [for node in edge: ...] over the two components of the tuple. *)
Definition bump_ends (e : edge) (nodes : gmap string Z) : gmap string Z :=
  bump e.2 (bump e.1 nodes).

(** [if nodes[node] == 1: nodes.pop(node) else: nodes[node] -= 1] *)
Definition drop (node : string) (nodes : gmap string Z)
  : result (gmap string Z) :=
  match nodes !! node with
  | None => Raise KeyError
  | Some d => if d =? 1 then Ok (delete node nodes)
              else Ok (<[node := d - 1]> nodes)
  end.

(** [[edge for edge in edges if edges[edge] <= end_time]] *)
Definition evict_edges (end_time : Z) (edges : gmap edge Z) : list edge :=
  (filter (λ kt, kt.2 ≤ end_time) (map_to_list edges)).*1.

(** The eviction loop. *)
Fixpoint evict (l : list edge) (edges : gmap edge Z) (nodes : gmap string Z)
  : result (gmap edge Z * gmap string Z) :=
  match l with
  | [] => Ok (edges, nodes)
  | e :: l =>
      match edges !! e with
      | None => Raise KeyError
      | Some _ =>
          nodes ← drop e.1 nodes;
          nodes ← drop e.2 nodes;
          evict l (delete e edges) nodes
      end
  end.

Definition nodes_values (nodes : gmap string Z) : list Z :=
  (map_to_list nodes).*2.

(** Lines 166-174 (and 204-210): store the time of the edge; when the edge is
    new, count it at both of its ends. *)
Definition add_edge (e : edge) (time_obj : Z)
    (edges : gmap edge Z) (nodes : gmap string Z)
  : gmap edge Z * gmap string Z :=
  match edges !! e with
  | Some _ => (<[e := time_obj]> edges, nodes)
  | None => (<[e := time_obj]> edges, bump_ends e nodes)
  end.

(** Lines 180-191: the end of the new window, which [datetime] cannot hold
    when it falls before 0001-01-01T00:00:00, and the eviction. *)
Definition sweep (latest : Z) (edges : gmap edge Z) (nodes : gmap string Z)
  : result (gmap edge Z * gmap string Z) :=
  if latest - time_window <? 0 then Raise OverflowError
  else
    let end_time := latest - time_window in
    evict (evict_edges end_time edges) edges nodes.

(** Lines 154-219, what the [for] loop does with an edge and its time: the
    new state and what is written. *)
Definition update (s : state) (e : edge) (time_obj : Z)
  : result (state * list string) :=
  let time_dif := time_obj - latest_time s in
  if 0 <=? time_dif then
    let g := add_edge e time_obj (edges s) (nodes s) in
    r ← (if 0 <? time_dif
         then g' ← sweep time_obj g.1 g.2; Ok (time_obj, g')
         else Ok (latest_time s, g));
    m ← median (nodes_values r.2.2);
    let str := format_median m in
    Ok (State r.1 r.2.1 r.2.2 m str, [str])
  else if - 60 <? time_dif then
    match edges s !! e with
    | Some t =>
        let edges1 :=
          if t <? time_obj then <[e := time_obj]> (edges s)
          else edges s in
        let str := format_median (median_degree s) in
        Ok (State (latest_time s) edges1 (nodes s) (median_degree s) str,
            [str])
    | None =>
        let edges1 := <[e := time_obj]> (edges s) in
        let nodes1 := bump_ends e (nodes s) in
        m ← median (nodes_values nodes1);
        let str := format_median m in
        Ok (State (latest_time s) edges1 nodes1 m str, [str])
    end
  else Ok (s, [med_degree_str s]).

(** The body of the [for] loop of step 4. *)
Definition process (s : state) (l : line) : result (state * list string) :=
  extract ← edge_from_str l;
  match extract with
  | None => Ok (s, [])
  | Some (e, time_obj) => update s e time_obj
  end.

(** ** The run *)

(** How [main] ends: normally, with the last state; by an exception; or not
    at all, the fuel being used up inside the first loop. Each with the lines
    written. *)
Inductive outcome :=
| Finished (s : state) (out : list string)
| Raised (e : exn) (out : list string)
| Spinning (out : list string).

(** [input_data.readline()]: the next line, or the empty string once the file
    is exhausted; nothing is found on the empty string. *)
Definition readline (input : list line) : line * list line :=
  match input with
  | [] => (Unmatched, [])
  | l :: rest => (l, rest)
  end.

(** The state set up by the first edge. The dictionary display
    [{edge[0]: 1, edge[1]: 1}] keeps one entry when the two keys are equal. *)
Definition first_state (e : edge) (time_obj : Z) : state :=
  State time_obj {[ e := time_obj ]} (<[e.2 := 1]> {[ e.1 := 1 ]})
        1 (format_median 1).

(** Step 3: [while median_degree == 0]. [None] when the fuel is used up
    with the loop still running; an exception of [edge_from_str] ends the
    loop and the run. *)
Fixpoint bootstrap (fuel : nat) (input : list line)
  : option (result (state * list line)) :=
  match fuel with
  | O => None
  | S fuel =>
      let '(l, rest) := readline input in
      match edge_from_str l with
      | Raise x => Some (Raise x)
      | Ok (Some (e, time_obj)) => Some (Ok (first_state e time_obj, rest))
      | Ok None => bootstrap fuel rest
      end
  end.

(** Step 4: [for line in input_data]. *)
Fixpoint run (s : state) (out : list string) (input : list line) : outcome :=
  match input with
  | [] => Finished s out
  | l :: rest =>
      match process s l with
      | Ok (s', w) => run s' (out ++ w) rest
      | Raise e => Raised e out
      end
  end.

(** Steps 3 and 4 of [main]; the line of the first edge is written by
    step 3. *)
Definition main (fuel : nat) (input : list line) : outcome :=
  match bootstrap fuel input with
  | None => Spinning []
  | Some (Raise x) => Raised x []
  | Some (Ok (s, rest)) => run s [med_degree_str s] rest
  end.

(** A transaction line of 6 July 2016, between 15 and 16 hours. *)
Definition txn (minute second : Z) (target actor : string) : line :=
  Matched (Some (Fields 2016 7 6 15 minute second)) target actor.

(** The time of such a line, as [datetime] gives it. *)
Definition txn_time (minute second : Z) : Z :=
  63603414000 + minute * 60 + second.

(** Three transactions: A-B, B-C and A-C. *)
Definition scenario (f1 f2 f3 : fields) : list line :=
  [Matched (Some f1) "A" "B"; Matched (Some f2) "B" "C";
   Matched (Some f3) "A" "C"].

(** What was written, whatever the outcome. *)
Definition written (o : outcome) : list string :=
  match o with
  | Finished _ out | Raised _ out | Spinning out => out
  end.

(** ** Specification side *)

(** The event of a line: what [edge_from_str] returns, when it returns
    something. *)
Definition event_of (l : line) : option (edge * Z) :=
  match edge_from_str l with
  | Ok extract => extract
  | Raise _ => None
  end.

(** The events of an input. *)
Definition events (input : list line) : list (edge * Z) :=
  omap event_of input.

(** A line on which [edge_from_str] raises no exception and finds no time
    in the first minute of the year 1. *)
Definition plain (l : line) : Prop :=
  match edge_from_str l with
  | Ok (Some (_, t)) => time_window ≤ t
  | Ok None => True
  | Raise _ => False
  end.

Definition later (acc : option Z) (t : Z) : Z :=
  match acc with
  | Some u => Z.max u t
  | None => t
  end.

(** The largest time among the events. *)
Definition clock (evs : list (edge * Z)) : option Z :=
  foldl (λ acc ev, Some (later acc ev.2)) None evs.

(** The most recent time among the events of one pair. *)
Definition last_seen (e : edge) (evs : list (edge * Z)) : option Z :=
  foldl (λ acc ev, if decide (ev.1 = e) then Some (later acc ev.2) else acc)
        None evs.

(** How many ends of the edge [e] are the node [n]: 2 for the pair (n, n). *)
Definition occ (n : string) (e : edge) : nat :=
  ((if decide (e.1 = n) then 1 else 0) + (if decide (e.2 = n) then 1 else 0))%nat.

(** The number of edge ends at [n] over the edge table. *)
Definition incidence (n : string) (edges : gmap edge Z) : nat :=
  map_fold (λ e _ k, occ n e + k)%nat 0%nat edges.

(** The number of edges of the table that contain [n]. *)
Definition edges_containing (n : string) (edges : gmap edge Z) : nat :=
  size (filter (λ kt, kt.1.1 = n ∨ kt.1.2 = n) edges).

(** The entry of the node table for a node with [k] edge ends. *)
Definition to_degree (k : nat) : option Z :=
  if decide (k = 0%nat) then None else Some (Z.of_nat k).

Definition consistent (edges : gmap edge Z) (nodes : gmap string Z) : Prop :=
  ∀ n, nodes !! n = to_degree (incidence n edges).

(** The first event of the input is a transaction between two different
    users. *)
Definition proper_start (input : list line) : Prop :=
  match head (events input) with
  | Some (e, _) => e.1 ≠ e.2
  | None => True
  end.

(** The median of a list, by the book. *)
Definition is_median (data : list Z) (m : Q) : Prop :=
  (1 ≤ length data)%nat ∧
  ∀ sorted, sorted ≡ₚ data → Sorted Z.le sorted →
    let n := length data in
    let lo := nth (n / 2 - 1)%nat sorted 0 in
    let hi := nth (n / 2)%nat sorted 0 in
    (Nat.Odd n → Qeq m (inject_Z hi)) ∧
    (Nat.Even n → Qeq m ((inject_Z lo + inject_Z hi) / inject_Z 2)%Q).

(** The character of a decimal digit. *)
Definition digit_char (d : Z) : Ascii.ascii :=
  Ascii.ascii_of_N (48 + Z.to_N d).

(** The table is in step with the window of the events seen so far. *)
Definition in_window (evs : list (edge * Z)) (s : state) : Prop :=
  clock evs = Some (latest_time s) ∧
  ∀ e t, edges s !! e = Some t ↔
         last_seen e evs = Some t ∧ latest_time s - time_window < t.

(** The stored median and line are those of the node table. *)
Definition reported (s : state) : Prop :=
  median (nodes_values (nodes s)) = Ok (median_degree s) ∧
  med_degree_str s = format_median (median_degree s).

(** ** Changes of the input and measures of the graph *)

(** The same transaction with target and actor exchanged. *)
Definition swap_ends (l : line) : line :=
  match l with
  | Unmatched => Unmatched
  | Matched t target actor => Matched t actor target
  end.

(** What [edge_from_str] returns on a line, [d] seconds later. *)
Definition shift_extract (d : Z) (r : result (option (edge * Z)))
  : result (option (edge * Z)) :=
  match r with
  | Ok (Some (e, t)) => Ok (Some (e, t + d))
  | Ok None => Ok None
  | Raise x => Raise x
  end.

(** The line [l'] is the line [l], [d] seconds later, the time of each being
    60 seconds or more after the start of the year 1. *)
Definition shifted (d : Z) (l l' : line) : Prop :=
  edge_from_str l' = shift_extract d (edge_from_str l) ∧
  ∀ e t, edge_from_str l = Ok (Some (e, t)) →
         time_window ≤ t ∧ time_window ≤ t + d.

(** The same state, every time in it [d] seconds later. *)
Definition shift_state (d : Z) (s : state) : state :=
  State (latest_time s + d) ((λ t, t + d) <$> edges s) (nodes s)
        (median_degree s) (med_degree_str s).

Definition shift_outcome (d : Z) (o : outcome) : outcome :=
  match o with
  | Finished s out => Finished (shift_state d s) out
  | Raised e out => Raised e out
  | Spinning out => Spinning out
  end.

(** The sum of the degrees in the node table. *)
Definition sum_degrees (nodes : gmap string Z) : Z :=
  map_fold (λ _ d acc, d + acc) 0 nodes.

(** A pair as [edge_from_str] builds it: two names, neither empty, the
    second not before the first. *)
Definition ordered_edge (e : edge) : Prop :=
  truthy e.1 = true ∧ truthy e.2 = true ∧ String.ltb e.2 e.1 = false.

(** A node table with names that are not empty and degrees of 1 at least. *)
Definition sound_nodes (N : gmap string Z) : Prop :=
  ∀ n d, N !! n = Some d → truthy n = true ∧ 1 ≤ d.

(** [drop] over a list of nodes, one after the other. *)
Fixpoint drops (l : list string) (nodes : gmap string Z)
  : result (gmap string Z) :=
  match l with
  | [] => Ok nodes
  | n :: l => nodes ← drop n nodes; drops l nodes
  end.

(** The cases of [update]: the time of the line against the latest time. *)
Ltac update_cases s T :=
  unfold update;
  destruct (Z.leb_spec 0 (T - latest_time s)) as [?HA|?HA];
  [ destruct (Z.ltb_spec 0 (T - latest_time s)) as [?Hadv|?Hadv]
  | destruct (Z.ltb_spec (- 60) (T - latest_time s)) as [?HB|?HC] ].

(** ** Node counts *)

Lemma to_degree_Some (k : nat) (d : Z) : to_degree k = Some d ↔ (k ≠ 0)%nat ∧ d = Z.of_nat k.
Proof.
  unfold to_degree. destruct (decide (k = 0%nat)) as [Hk|Hk]; split.
  - done.
  - intros [? _]. done.
  - intros [= <-]. done.
  - intros [_ ->]. done.
Qed.

Lemma to_degree_None (k : nat) : to_degree k = None ↔ k = 0%nat.
Proof. unfold to_degree. case_decide; naive_solver. Qed.

Lemma incidence_empty (n : string) : incidence n ∅ = 0%nat.
Proof. unfold incidence. by rewrite map_fold_empty. Qed.

Lemma incidence_delete (n : string) (e : edge) (t : Z) (E : gmap edge Z) :
  E !! e = Some t → incidence n E = (occ n e + incidence n (delete e E))%nat.
Proof.
  intros He. unfold incidence.
  rewrite (map_fold_delete_L _ _ e t E); [done| |done].
  intros; lia.
Qed.

Lemma incidence_insert_new (n : string) (e : edge) (t : Z) (E : gmap edge Z) :
  E !! e = None → incidence n (<[e:=t]> E) = (occ n e + incidence n E)%nat.
Proof.
  intros He. unfold incidence.
  rewrite map_fold_insert_L; [done| |done].
  intros; lia.
Qed.

Lemma incidence_insert_old (n : string) (e : edge) (t : Z) (E : gmap edge Z) :
  is_Some (E !! e) → incidence n (<[e:=t]> E) = incidence n E.
Proof.
  intros [u He].
  rewrite <-(insert_delete_eq E e t).
  rewrite incidence_insert_new by apply lookup_delete_eq.
  by rewrite (incidence_delete n e u E).
Qed.

Lemma incidence_member (n : string) (e : edge) (t : Z) (E : gmap edge Z) :
  E !! e = Some t → (occ n e ≤ incidence n E)%nat.
Proof. intros He. rewrite (incidence_delete n e t E He). lia. Qed.

Section counts.
Variable c : string → nat.
Variable N : gmap string Z.
Hypothesis HN : ∀ n, N !! n = to_degree (c n).

Lemma bump_counts (x n : string) :
  bump x N !! n = to_degree (c n + (if decide (x = n) then 1 else 0)).
Proof.
  unfold bump. pose proof (HN x) as Hx.
  destruct (N !! x) as [d|] eqn:E; symmetry in Hx.
  - apply to_degree_Some in Hx as [Hc ->].
    rewrite lookup_insert. case_decide as Hd.
    + subst n. symmetry. apply to_degree_Some. split; [lia|]. lia.
    + rewrite HN. f_equal. lia.
  - apply to_degree_None in Hx.
    rewrite lookup_insert. case_decide as Hd.
    + subst n. rewrite Hx. done.
    + rewrite HN. f_equal. lia.
Qed.

Lemma drop_counts (x : string) :
  (1 ≤ c x)%nat →
  ∃ N', drop x N = Ok N' ∧
        ∀ n, N' !! n = to_degree (c n - (if decide (x = n) then 1 else 0)).
Proof.
  intros Hx. unfold drop. pose proof (HN x) as Hl.
  destruct (N !! x) as [d|] eqn:E; symmetry in Hl.
  - apply to_degree_Some in Hl as [_ ->].
    destruct (Z.eqb_spec (Z.of_nat (c x)) 1) as [H1|H1].
    + eexists; split; [done|]. intros n. rewrite lookup_delete.
      case_decide as Hd.
      * subst n. symmetry. apply to_degree_None. lia.
      * rewrite HN. f_equal. lia.
    + eexists; split; [done|]. intros n. rewrite lookup_insert.
      case_decide as Hd.
      * subst n. symmetry. apply to_degree_Some. lia.
      * rewrite HN. f_equal. lia.
  - apply to_degree_None in Hl. lia.
Qed.
End counts.

Lemma occ_split (n : string) (e : edge) :
  occ n e = ((if decide (e.1 = n) then 1 else 0)
             + (if decide (e.2 = n) then 1 else 0))%nat.
Proof. done. Qed.

Lemma bump_ends_consistent (e : edge) (t : Z) (E : gmap edge Z) (N : gmap string Z) :
  E !! e = None → consistent E N → consistent (<[e:=t]> E) (bump_ends e N).
Proof.
  intros He HN n. unfold bump_ends.
  rewrite incidence_insert_new by done.
  rewrite (bump_counts
             (λ n, incidence n E + (if decide (e.1 = n) then 1 else 0))%nat
             (bump e.1 N)).
  - f_equal. rewrite occ_split. lia.
  - intros m. apply (bump_counts (λ n, incidence n E) N HN).
Qed.

Lemma add_edge_consistent (e : edge) (t : Z) (E : gmap edge Z) (N : gmap string Z) :
  consistent E N → consistent (add_edge e t E N).1 (add_edge e t E N).2.
Proof.
  intros HN. unfold add_edge. destruct (E !! e) as [u|] eqn:He; simpl.
  - intros n. rewrite incidence_insert_old by eauto. apply HN.
  - by apply bump_ends_consistent.
Qed.

Lemma drop_ends_consistent (e : edge) (t : Z) (E : gmap edge Z) (N : gmap string Z) :
  E !! e = Some t → consistent E N →
  ∃ N1 N2, drop e.1 N = Ok N1 ∧ drop e.2 N1 = Ok N2 ∧
           consistent (delete e E) N2.
Proof.
  intros He HN.
  assert (∀ n, incidence n E = (occ n e + incidence n (delete e E))%nat) as Hi
    by (intros; by eapply incidence_delete).
  destruct (drop_counts (λ n, incidence n E) N HN e.1) as (N1 & H1 & HN1).
  { rewrite Hi, occ_split. rewrite decide_True by done. lia. }
  destruct (drop_counts _ N1 HN1 e.2) as (N2 & H2 & HN2).
  { simpl. rewrite Hi, occ_split. rewrite (decide_True (P := e.2 = e.2)) by done.
    repeat case_decide; lia. }
  exists N1, N2. split; [done|]. split; [done|].
  intros n. rewrite HN2. f_equal. rewrite Hi, occ_split. lia.
Qed.

Lemma evict_consistent (l : list edge) : ∀ (E : gmap edge Z) (N : gmap string Z),
  NoDup l → (∀ e, e ∈ l → is_Some (E !! e)) → consistent E N →
  ∃ E' N', evict l E N = Ok (E', N') ∧ consistent E' N'.
Proof.
  induction l as [|e l IH]; intros E N Hnd Hin HN; simpl.
  - eauto.
  - apply NoDup_cons in Hnd as [Hne Hnd].
    destruct (Hin e) as [t He]; [left|]. rewrite He.
    destruct (drop_ends_consistent e t E N He HN) as (N1 & N2 & H1 & H2 & HN2).
    rewrite H1. simpl. rewrite H2. simpl.
    apply IH; [done| |done].
    intros e' He'. rewrite lookup_delete_ne by (intros ->; done).
    apply Hin. by right.
Qed.

(** ** The eviction sweep *)

Lemma evict_lookup (l : list edge) :
  ∀ (E E' : gmap edge Z) (N N' : gmap string Z),
    evict l E N = Ok (E', N') →
    ∀ k, E' !! k = if decide (k ∈ l) then None else E !! k.
Proof.
  induction l as [|e l IH]; intros E E' N N' H k; simpl in H.
  - injection H as <- <-. rewrite decide_False; [done|apply not_elem_of_nil].
  - destruct (E !! e) as [t|] eqn:He; [|done].
    destruct (drop e.1 N) as [N1|] eqn:H1; [|done]. simpl in H.
    destruct (drop e.2 N1) as [N2|] eqn:H2; [|done]. simpl in H.
    rewrite (IH _ _ _ _ H k).
    destruct (decide (k = e)) as [->|Hk].
    + rewrite (decide_True (P := e ∈ e :: l)) by left.
      case_decide; [done|apply lookup_delete_eq].
    + rewrite lookup_delete_ne by done.
      destruct (decide (k ∈ l)) as [Hl|Hl].
      * rewrite decide_True; [done|by right].
      * rewrite decide_False; [done|].
        intros [?|?]%elem_of_cons; done.
Qed.

Lemma elem_of_evict_edges (end_time : Z) (E : gmap edge Z) (e : edge) :
  e ∈ evict_edges end_time E ↔ ∃ t, E !! e = Some t ∧ t ≤ end_time.
Proof.
  unfold evict_edges. rewrite list_elem_of_fmap. split.
  - intros [[k t] [-> [Ht Hin]%list_elem_of_filter]].
    exists t. split; [by apply elem_of_map_to_list|done].
  - intros (t & He & Ht). exists (e, t). split; [done|].
    apply list_elem_of_filter. split; [done|by apply elem_of_map_to_list].
Qed.

Lemma NoDup_evict_edges (end_time : Z) (E : gmap edge Z) :
  NoDup (evict_edges end_time E).
Proof.
  unfold evict_edges.
  eapply sublist_NoDup; [apply (NoDup_fst_map_to_list E)|].
  apply fmap_sublist, sublist_filter.
Qed.

Lemma sweep_Ok (latest : Z) (E E' : gmap edge Z) (N N' : gmap string Z) :
  sweep latest E N = Ok (E', N') →
  time_window ≤ latest ∧
  evict (evict_edges (latest - time_window) E) E N = Ok (E', N').
Proof.
  unfold sweep. destruct (Z.ltb_spec (latest - time_window) 0) as [?|Hlate];
    [done|].
  intros H. split; [lia|done].
Qed.

Lemma sweep_lookup (latest : Z) (E E' : gmap edge Z) (N N' : gmap string Z) :
  sweep latest E N = Ok (E', N') →
  ∀ k t, E' !! k = Some t ↔ E !! k = Some t ∧ latest - time_window < t.
Proof.
  intros [_ H]%sweep_Ok k t. rewrite (evict_lookup _ _ _ _ _ H k).
  case_decide as Hk.
  - apply elem_of_evict_edges in Hk as (u & Hu & Hle).
    split; [done|]. intros [Hk ?]. rewrite Hu in Hk. injection Hk as ->. lia.
  - split; [|by intros [? _]]. intros Hkt. split; [done|].
    destruct (decide (latest - time_window < t)) as [|Hn]; [done|].
    destruct Hk. apply elem_of_evict_edges. exists t. split; [done|lia].
Qed.

Lemma sweep_consistent (latest : Z) (E : gmap edge Z) (N : gmap string Z) :
  time_window ≤ latest → consistent E N →
  ∃ E' N', sweep latest E N = Ok (E', N') ∧ consistent E' N'.
Proof.
  intros Hlate HN. unfold sweep.
  destruct (Z.ltb_spec (latest - time_window) 0) as [?|_]; [lia|].
  apply evict_consistent; [|  |done].
  - apply NoDup_evict_edges.
  - intros e (t & He & _)%elem_of_evict_edges. eauto.
Qed.

Lemma sweep_Raise (latest : Z) (E : gmap edge Z) (N : gmap string Z)
    (x : exn) :
  consistent E N → sweep latest E N = Raise x →
  x = OverflowError ∧ latest < time_window.
Proof.
  intros HN H. destruct (decide (time_window ≤ latest)) as [Hlate|Hearly].
  - destruct (sweep_consistent latest E N Hlate HN) as (E' & N' & H' & _).
    congruence.
  - unfold sweep in H.
    destruct (Z.ltb_spec (latest - time_window) 0) as [_|?]; [|lia].
    injection H as <-. split; [done|lia].
Qed.

(** ** The median *)

Lemma median_is_Ok (data : list Z) :
  data ≠ [] → ∃ m, median data = Ok m.
Proof.
  intros Hd. unfold median.
  assert (length (merge_sort Z.le data) = length data) as ->
    by (by rewrite merge_sort_Permutation).
  destruct data as [|x data]; [done|]. simpl length.
  destruct (S (length data) mod 2 =? 1)%nat; eauto.
Qed.

Lemma median_Ok_inv (data : list Z) (m : Q) :
  median data = Ok m → (1 ≤ length data)%nat.
Proof.
  unfold median.
  assert (length (merge_sort Z.le data) = length data) as ->
    by (by rewrite merge_sort_Permutation).
  destruct (Nat.eqb_spec (length data) 0); [done|lia].
Qed.

Lemma median_spec (data : list Z) (m : Q) :
  median data = Ok m → is_median data m.
Proof.
  intros H. split; [by eapply median_Ok_inv|].
  intros sorted Hperm Hsorted n lo hi.
  assert (sorted = merge_sort Z.le data) as Hs.
  { apply (Sorted_unique Z.le); [done|apply Sorted_merge_sort; apply _|].
    by rewrite merge_sort_Permutation. }
  unfold median in H.
  assert (length (merge_sort Z.le data) = n) as Hlen
    by (by rewrite merge_sort_Permutation).
  rewrite Hlen, <-Hs in H. fold lo hi in H.
  destruct (n =? 0)%nat; [done|].
  destruct (Nat.eqb_spec (n mod 2) 1) as [Hodd|Heven]; injection H as <-.
  - split; [reflexivity|].
    intros [k Hk]. rewrite Hk, Nat.mul_comm, Nat.Div0.mod_mul in Hodd. done.
  - split.
    + intros [k Hk]. destruct Heven.
      rewrite Hk, Nat.add_comm, Nat.mul_comm, Nat.Div0.mod_add. done.
    + intros _. rewrite Qred_correct. unfold Qeq, Qdiv, Qmult, Qplus, Qinv,
        inject_Z. simpl. lia.
Qed.

(** A median is a whole number of halves. *)
Lemma median_half (data : list Z) (m : Q) :
  median data = Ok m → ∃ k : Z, Qeq m (k # 2).
Proof.
  unfold median. set (d := merge_sort Z.le data).
  destruct (_ =? 0)%nat; [done|].
  destruct (_ =? 1)%nat; intros [= <-].
  - exists (2 * nth (length d / 2) d 0). unfold Qeq. simpl. lia.
  - eexists. apply Qred_correct.
Qed.

Lemma nodes_values_nonempty (N : gmap string Z) (n : string) :
  is_Some (N !! n) → nodes_values N ≠ [].
Proof.
  intros [d Hd] Hnil. unfold nodes_values in Hnil.
  apply fmap_nil_inv, map_to_list_empty_iff in Hnil. by subst.
Qed.

(** ** Dates and lines *)

Lemma days_before_year_nonneg (y : Z) : 1 ≤ y → 0 ≤ days_before_year y.
Proof.
  intros Hy. unfold days_before_year.
  pose proof (Z.div_pos (y - 1) 4 ltac:(lia) ltac:(lia)).
  pose proof (Z.div_pos (y - 1) 400 ltac:(lia) ltac:(lia)).
  pose proof (Z.div_le_upper_bound (y - 1) 100 (y - 1) ltac:(lia) ltac:(lia)).
  lia.
Qed.

(** No [datetime] is before 0001-01-01T00:00:00. *)
Lemma datetime_nonneg (f : fields) (t : Z) : datetime f = Ok t → 0 ≤ t.
Proof.
  unfold datetime.
  destruct (Z.leb_spec 1 (year f)); simpl; [|done].
  destruct (year f <=? 9999); simpl; [|done].
  destruct (Z.leb_spec 1 (month f)); simpl; [|done].
  destruct (Z.leb_spec (month f) 12); simpl; [|done].
  destruct (Z.leb_spec 1 (day f)); simpl; [|done].
  destruct (day f <=? _); simpl; [|done].
  destruct (Z.leb_spec 0 (hour f)); simpl; [|done].
  destruct (hour f <=? 23); simpl; [|done].
  destruct (Z.leb_spec 0 (minute f)); simpl; [|done].
  destruct (minute f <=? 59); simpl; [|done].
  destruct (Z.leb_spec 0 (second f)); simpl; [|done].
  destruct (second f <=? 59); simpl; [|done].
  intros [= <-].
  pose proof (days_before_year_nonneg (year f) ltac:(done)).
  assert (0 ≤ days_before_month (year f) (month f)).
  { unfold days_before_month.
    assert (month f = 1 ∨ month f = 2 ∨ month f = 3 ∨ month f = 4
            ∨ month f = 5 ∨ month f = 6 ∨ month f = 7 ∨ month f = 8
            ∨ month f = 9 ∨ month f = 10 ∨ month f = 11 ∨ month f = 12)
      as Hm by lia.
    destruct ((2 <? month f) && is_leap (year f));
      repeat destruct Hm as [->|Hm]; try rewrite Hm; lia. }
  lia.
Qed.

Lemma edge_from_str_nonneg (l : line) (e : edge) (T : Z) :
  edge_from_str l = Ok (Some (e, T)) → 0 ≤ T.
Proof.
  destruct l as [|[f|] a b]; simpl; try done.
  - destruct (truthy a && truthy b); [|done].
    destruct (datetime f) as [t|] eqn:Hf; simpl; [|done].
    intros [= _ <-]. by eapply datetime_nonneg.
  - by destruct (truthy a && truthy b).
Qed.

(** [edge_from_str] raises no other exception than [ValueError]. *)
Lemma edge_from_str_Raise (l : line) (x : exn) :
  edge_from_str l = Raise x → x = ValueError.
Proof.
  destruct l as [|[f|] a b]; simpl; try done.
  - destruct (truthy a && truthy b); [|done].
    destruct (datetime f) as [t|y] eqn:Hf; simpl; [done|].
    intros [= <-]. unfold datetime in Hf.
    repeat (destruct (negb _) in Hf; [by injection Hf as <-|]). done.
  - destruct (truthy a && truthy b); [|done]. by intros [= <-].
Qed.

(** ** One line *)

Lemma bind_Ok {A B} (r : result A) (k : A → result B) (b : B) :
  r ≫= k = Ok b ↔ ∃ a, r = Ok a ∧ k a = Ok b.
Proof.
  destruct r as [a|e]; simpl; split; eauto.
  - by intros (a' & [= <-] & ?).
  - done.
  - by intros (? & ? & ?).
Qed.

Lemma process_event (s : state) (l : line) (e : edge) (T : Z) :
  edge_from_str l = Ok (Some (e, T)) → process s l = update s e T.
Proof. intros H. unfold process. by rewrite H. Qed.

Lemma process_eventless (s : state) (l : line) :
  edge_from_str l = Ok None → process s l = Ok (s, []).
Proof. intros H. unfold process. by rewrite H. Qed.

Lemma process_Ok (s s' : state) (l : line) (w : list string) :
  process s l = Ok (s', w) →
  (edge_from_str l = Ok None ∧ s' = s ∧ w = []) ∨
  (∃ e T, edge_from_str l = Ok (Some (e, T)) ∧ update s e T = Ok (s', w)).
Proof.
  unfold process. destruct (edge_from_str l) as [[[e T]|]|x]; simpl.
  - right. eauto.
  - intros [= <- <-]. by left.
  - done.
Qed.

Lemma add_edge_table (e : edge) (t : Z) (E : gmap edge Z) (N : gmap string Z) :
  (add_edge e t E N).1 = <[e:=t]> E.
Proof. unfold add_edge. by destruct (E !! e). Qed.

Lemma consistent_end_present (E : gmap edge Z) (N : gmap string Z)
    (e : edge) (t : Z) :
  consistent E N → E !! e = Some t → is_Some (N !! e.1).
Proof.
  intros HN He. rewrite (HN e.1).
  pose proof (incidence_member e.1 e t E He) as Hle.
  rewrite occ_split, decide_True in Hle by done.
  unfold to_degree. rewrite decide_False by lia. eauto.
Qed.

Lemma median_of_consistent (E : gmap edge Z) (N : gmap string Z)
    (e : edge) (t : Z) :
  consistent E N → E !! e = Some t → ∃ m, median (nodes_values N) = Ok m.
Proof.
  intros HN He. apply median_is_Ok.
  eapply nodes_values_nonempty, consistent_end_present; eauto.
Qed.

(** From a consistent graph, an edge whose time does not move the latest
    time into the first minute of the year 1 is taken in without an exception
    and leaves a consistent graph. *)
Lemma update_consistent (s : state) (e : edge) (T : Z) :
  consistent (edges s) (nodes s) →
  (latest_time s < T → time_window ≤ T) →
  ∃ s' w, update s e T = Ok (s', w) ∧ consistent (edges s') (nodes s').
Proof.
  intros HN Hlate. update_cases s T.
  - pose proof (add_edge_consistent e T _ _ HN) as Hg.
    destruct (sweep_consistent T _ _ ltac:(apply Hlate; lia) Hg)
      as (E' & N' & Hsw & HN').
    rewrite Hsw. simpl.
    destruct (median_of_consistent E' N' e T HN') as [m Hm].
    { eapply sweep_lookup; [done|]. rewrite add_edge_table, lookup_insert_eq.
      split; [done|]. unfold time_window. lia. }
    rewrite Hm. simpl. eauto.
  - pose proof (add_edge_consistent e T _ _ HN) as Hg. simpl.
    destruct (median_of_consistent _ _ e T Hg) as [m Hm].
    { by rewrite add_edge_table, lookup_insert_eq. }
    rewrite Hm. simpl. eauto.
  - destruct (edges s !! e) as [t|] eqn:He.
    + eexists _, _. split; [done|]. simpl.
      destruct (t <? T); [|done].
      intros n. rewrite incidence_insert_old by eauto. apply HN.
    + pose proof (bump_ends_consistent e T _ _ He HN) as Hg.
      destruct (median_of_consistent _ _ e T Hg) as [m Hm].
      { by rewrite lookup_insert_eq. }
      rewrite Hm. simpl. eauto.
  - eauto.
Qed.

(** An edge is taken in by a step that moves the latest time only when the
    new latest time is a minute or more into the year 1. *)
Lemma update_Ok_late (s s' : state) (e : edge) (T : Z) (w : list string) :
  update s e T = Ok (s', w) → latest_time s < T → time_window ≤ T.
Proof.
  intros H Hlt. unfold update in H.
  destruct (Z.leb_spec 0 (T - latest_time s)) as [_|?]; [|lia].
  destruct (Z.ltb_spec 0 (T - latest_time s)) as [_|?]; [|lia].
  apply bind_Ok in H as ([latest g] & Hsw & _).
  apply bind_Ok in Hsw as ([E' N'] & Hsw & _).
  by apply sweep_Ok in Hsw as [? _].
Qed.

Lemma update_consistent_Ok (s s' : state) (e : edge) (T : Z) (w : list string) :
  consistent (edges s) (nodes s) → update s e T = Ok (s', w) →
  consistent (edges s') (nodes s').
Proof.
  intros HN H.
  destruct (update_consistent s e T HN) as (s1 & w1 & H1 & HN1).
  { by eapply update_Ok_late. }
  rewrite H in H1. by injection H1 as <- _.
Qed.


(** Whatever the graph, the stored median and line follow the node table,
    and the line written is the stored one. *)
Lemma update_reported (s s' : state) (e : edge) (T : Z) (w : list string) :
  reported s → update s e T = Ok (s', w) →
  reported s' ∧ w = [med_degree_str s'].
Proof.
  intros [Hm Hstr]. update_cases s T; intros H.
  - apply bind_Ok in H as ([latest g] & _ & H).
    apply bind_Ok in H as (m & Hmed & [= <- <-]). done.
  - apply bind_Ok in H as ([latest g] & _ & H).
    apply bind_Ok in H as (m & Hmed & [= <- <-]). done.
  - destruct (edges s !! e) as [t|] eqn:He.
    + injection H as <- <-. done.
    + apply bind_Ok in H as (m & Hmed & [= <- <-]). done.
  - injection H as <- <-. done.
Qed.

Lemma event_of_Ok (l : line) :
  (∃ r, edge_from_str l = Ok r) → edge_from_str l = Ok (event_of l).
Proof. intros [r H]. unfold event_of. by rewrite H. Qed.

Lemma process_reported (s s' : state) (l : line) (w : list string) :
  reported s → process s l = Ok (s', w) →
  reported s' ∧
  w = match event_of l with
      | Some _ => [med_degree_str s']
      | None => []
      end.
Proof.
  intros Hr [(Hl & -> & ->)|(e & T & Hl & Hu)]%process_Ok;
    unfold event_of; rewrite Hl; [done|].
  by eapply update_reported.
Qed.

Lemma process_consistent_Ok (s s' : state) (l : line) (w : list string) :
  consistent (edges s) (nodes s) → process s l = Ok (s', w) →
  consistent (edges s') (nodes s').
Proof.
  intros HN [(Hl & -> & ->)|(e & T & Hl & Hu)]%process_Ok; [done|].
  by eapply update_consistent_Ok.
Qed.

(** From a consistent graph a plain line is processed without an
    exception. *)
Lemma process_plain (s : state) (l : line) :
  consistent (edges s) (nodes s) → plain l → ∃ r, process s l = Ok r.
Proof.
  intros HN Hl. unfold plain in Hl. unfold process.
  destruct (edge_from_str l) as [[[e T]|]|x]; simpl; [|eauto|done].
  destruct (update_consistent s e T HN) as (s' & w & H & _); eauto.
Qed.


(** ** The window *)

Lemma events_app (h1 h2 : list line) : events (h1 ++ h2) = events h1 ++ events h2.
Proof. apply omap_app. Qed.

Lemma events_single (l : line) :
  events [l] = match event_of l with Some ev => [ev] | None => [] end.
Proof. unfold events. simpl. by destruct (event_of l). Qed.

Lemma events_event (l : line) (ev : edge * Z) :
  edge_from_str l = Ok (Some ev) → events [l] = [ev].
Proof. intros H. rewrite events_single. unfold event_of. by rewrite H. Qed.

Lemma events_eventless (l : line) :
  edge_from_str l = Ok None → events [l] = [].
Proof. intros H. rewrite events_single. unfold event_of. by rewrite H. Qed.

Lemma clock_snoc (evs : list (edge * Z)) (ev : edge * Z) :
  clock (evs ++ [ev]) = Some (later (clock evs) ev.2).
Proof. unfold clock. by rewrite foldl_snoc. Qed.

Lemma last_seen_snoc (e : edge) (evs : list (edge * Z)) (ev : edge * Z) :
  last_seen e (evs ++ [ev]) =
  if decide (ev.1 = e) then Some (later (last_seen e evs) ev.2)
  else last_seen e evs.
Proof. unfold last_seen. by rewrite foldl_snoc. Qed.

Lemma last_seen_le_clock (e : edge) (evs : list (edge * Z)) (t : Z) :
  last_seen e evs = Some t → ∃ c, clock evs = Some c ∧ t ≤ c.
Proof.
  revert t. induction evs as [|ev evs IH] using rev_ind; intros t.
  - done.
  - rewrite last_seen_snoc, clock_snoc. intros H. eexists; split; [done|].
    case_decide.
    + injection H as <-. destruct (last_seen e evs) as [u|]; simpl.
      * destruct (IH u eq_refl) as (c & -> & ?). simpl. lia.
      * destruct (clock evs); simpl; lia.
    + destruct (IH t H) as (c & -> & ?). simpl. lia.
Qed.

Lemma later_new (acc : option Z) (t : Z) :
  (∀ u, acc = Some u → u ≤ t) → later acc t = t.
Proof. destruct acc as [u|]; simpl; [|done]. intros H. specialize (H u eq_refl). lia. Qed.

Lemma update_in_window (evs : list (edge * Z)) (s s' : state)
    (e : edge) (T : Z) (w : list string) :
  in_window evs s → update s e T = Ok (s', w) →
  in_window (evs ++ [(e, T)]) s'.
Proof.
  intros [Hc HE].
  assert (∀ e t, last_seen e evs = Some t → t ≤ latest_time s) as Hle.
  { intros e0 t (c & Hc' & ?)%last_seen_le_clock. congruence. }
  update_cases s T; intros H.
  - (* the clock advances *)
    apply bind_Ok in H as ([latest g] & Hsw & H).
    apply bind_Ok in Hsw as ([E' N'] & Hsw & [= <- <-]).
    apply bind_Ok in H as (m & _ & [= <- <-]).
    split; simpl.
    + rewrite clock_snoc, Hc. simpl. f_equal. lia.
    + intros e' t. rewrite (sweep_lookup _ _ _ _ _ Hsw), add_edge_table.
      rewrite last_seen_snoc. simpl. unfold time_window.
      destruct (decide (e = e')) as [<-|Hne].
      * rewrite lookup_insert_eq, later_new; [done|].
        intros u Hu%Hle. lia.
      * rewrite lookup_insert_ne, HE by done. unfold time_window.
        intuition lia.
  - (* same time as the clock *)
    apply bind_Ok in H as ([latest g] & [= <- <-] & H).
    apply bind_Ok in H as (m & _ & [= <- <-]).
    split; simpl.
    + rewrite clock_snoc, Hc. simpl. f_equal. lia.
    + intros e' t. rewrite add_edge_table, last_seen_snoc. simpl.
      destruct (decide (e = e')) as [<-|Hne].
      * rewrite lookup_insert_eq, later_new by (intros u Hu%Hle; lia).
        unfold time_window. split; [|by intros [? _]].
        intros [= <-]. split; [done|lia].
      * rewrite lookup_insert_ne by done. apply HE.
  - (* late, inside the window *)
    assert (clock (evs ++ [(e, T)]) = Some (latest_time s)) as Hc'.
    { rewrite clock_snoc, Hc. simpl. f_equal. lia. }
    destruct (edges s !! e) as [t0|] eqn:He.
    + injection H as <- <-. split; [done|]. simpl.
      intros e' t. rewrite last_seen_snoc. simpl.
      apply HE in He as He'. destruct He' as [Hls Hw].
      destruct (decide (e = e')) as [<-|Hne].
      * rewrite Hls. simpl. destruct (Z.ltb_spec t0 T).
        -- rewrite lookup_insert_eq. unfold time_window.
           replace (Z.max t0 T) with T by lia.
           split; [|by intros [? _]]. intros [= <-]. split; [done|lia].
        -- rewrite He. replace (Z.max t0 T) with t0 by lia.
           split; [|by intros [? _]]. intros [= <-]. done.
      * destruct (t0 <? T); [rewrite lookup_insert_ne by done|]; apply HE.
    + apply bind_Ok in H as (m & _ & [= <- <-]).
      split; [done|]. simpl.
      intros e' t. rewrite last_seen_snoc. simpl.
      destruct (decide (e = e')) as [<-|Hne].
      * rewrite lookup_insert_eq, later_new.
        { unfold time_window. split; [|by intros [? _]].
          intros [= <-]. split; [done|lia]. }
        intros u Hu. destruct (decide (latest_time s - time_window < u)) as [Hin|Hout].
        { assert (edges s !! e = Some u) as Hx by (by apply HE). congruence. }
        unfold time_window in Hout. lia.
      * rewrite lookup_insert_ne by done. apply HE.
  - (* outside the window *)
    injection H as <- <-. split.
    + rewrite clock_snoc, Hc. simpl. f_equal. lia.
    + intros e' t. rewrite last_seen_snoc. simpl.
      destruct (decide (e = e')) as [<-|Hne]; [|apply HE].
      rewrite HE. unfold time_window.
      destruct (last_seen e evs) as [u|] eqn:Hu; simpl.
      * split; intros [[= <-] Hw]; (split; [f_equal; lia|lia]).
      * split; [by intros [? _]|]. intros [[= <-] ?]. lia.
Qed.

Lemma process_in_window (evs : list (edge * Z)) (s s' : state)
    (l : line) (w : list string) :
  in_window evs s → process s l = Ok (s', w) →
  in_window (evs ++ events [l]) s'.
Proof.
  intros Hw [(Hl & -> & ->)|(e & T & Hl & Hu)]%process_Ok.
  - by rewrite (events_eventless _ Hl), app_nil_r.
  - rewrite (events_event _ _ Hl). by eapply update_in_window.
Qed.


(** ** The two loops *)

Lemma events_eventless_all (pre : list line) :
  Forall (λ l, edge_from_str l = Ok None) pre → events pre = [].
Proof.
  induction 1 as [|l pre Hl _ IH]; [done|].
  unfold events in *. simpl. unfold event_of at 1. by rewrite Hl.
Qed.

Lemma bootstrap_Ok (fuel : nat) : ∀ (input rest : list line) (s : state),
  bootstrap fuel input = Some (Ok (s, rest)) →
  ∃ pre l e T, input = pre ++ l :: rest ∧
               Forall (λ l, edge_from_str l = Ok None) pre ∧
               edge_from_str l = Ok (Some (e, T)) ∧ s = first_state e T.
Proof.
  induction fuel as [|fuel IH]; intros input rest s H; [done|].
  destruct input as [|l input]; simpl in H.
  - apply IH in H as (pre & l & e & T & Heq & _).
    by destruct pre.
  - destruct (edge_from_str l) as [[[e T]|]|x] eqn:Hl.
    + injection H as <- <-. by exists [], l, e, T.
    + apply IH in H as (pre & l' & e & T & -> & Hpre & Hl' & ->).
      exists (l :: pre), l', e, T. split; [done|]. split; [|done].
      by constructor.
    + done.
Qed.

Lemma bootstrap_Raise (fuel : nat) : ∀ (input : list line) (x : exn),
  bootstrap fuel input = Some (Raise x) →
  x = ValueError ∧ ∃ l, l ∈ input ∧ edge_from_str l = Raise x.
Proof.
  induction fuel as [|fuel IH]; intros input x H; [done|].
  destruct input as [|l input]; simpl in H.
  - apply IH in H as (_ & l & Hl & _). by apply elem_of_nil in Hl.
  - destruct (edge_from_str l) as [[[e T]|]|y] eqn:Hl.
    + done.
    + apply IH in H as (-> & l' & Hin & Hl'). split; [done|].
      exists l'. split; [by right|done].
    + injection H as <-. split; [by eapply edge_from_str_Raise|].
      exists l. split; [left|done].
Qed.

Lemma bootstrap_None (fuel : nat) : ∀ input : list line,
  Forall (λ l, edge_from_str l = Ok None) input → bootstrap fuel input = None.
Proof.
  induction fuel as [|fuel IH]; intros input H; [done|].
  destruct H as [|l input Hl H]; simpl.
  - apply IH. constructor.
  - rewrite Hl. by apply IH.
Qed.

Lemma bootstrap_enough (input : list line) : ∀ fuel : nat,
  events input ≠ [] → (length input ≤ fuel)%nat →
  is_Some (bootstrap fuel input).
Proof.
  induction input as [|l input IH]; intros fuel H Hf; [done|].
  destruct fuel as [|fuel]; simpl in *; [lia|].
  unfold events in H. simpl in H. unfold event_of in H.
  destruct (edge_from_str l) as [[[e T]|]|x]; [eauto| |eauto].
  apply IH; [done|lia].
Qed.

Lemma bootstrap_app (fuel : nat) (h1 h2 rest : list line) (s : state) :
  bootstrap fuel h1 = Some (Ok (s, rest)) →
  bootstrap fuel (h1 ++ h2) = Some (Ok (s, rest ++ h2)).
Proof.
  revert h1. induction fuel as [|fuel IH]; intros h1 H; [done|].
  destruct h1 as [|l h1]; simpl in H.
  - rewrite bootstrap_None in H; [done|constructor].
  - simpl. destruct (edge_from_str l) as [[[e T]|]|x].
    + by injection H as <- <-.
    + by apply IH.
    + done.
Qed.

Lemma run_app (h1 h2 : list line) : ∀ (s : state) (out : list string),
  run s out (h1 ++ h2) =
  match run s out h1 with
  | Finished s' out' => run s' out' h2
  | o => o
  end.
Proof.
  induction h1 as [|l h1 IH]; intros s out; simpl; [done|].
  destruct (process s l) as [[s' w]|e]; [apply IH|done].
Qed.

Lemma main_app (fuel : nat) (h1 h2 : list line) (s : state) (out : list string) :
  main fuel h1 = Finished s out → main fuel (h1 ++ h2) = run s out h2.
Proof.
  unfold main.
  destruct (bootstrap fuel h1) as [[[s0 rest]|x]|] eqn:Hb; [|done..].
  intros H. rewrite (bootstrap_app _ _ _ _ _ Hb), run_app. by rewrite H.
Qed.

Lemma run_invariant (I : list line → list string → state → Prop) :
  (∀ h out s l s' w,
     I h out s → process s l = Ok (s', w) → I (h ++ [l]) (out ++ w) s') →
  ∀ rest h out s s' out',
    I h out s → run s out rest = Finished s' out' → I (h ++ rest) out' s'.
Proof.
  intros Hstep rest. induction rest as [|l rest IH]; intros h out s s' out' HI H.
  - simpl in H. injection H as <- <-. by rewrite app_nil_r.
  - simpl in H. destruct (process s l) as [[s1 w]|e] eqn:Hp; [|done].
    rewrite (cons_middle l h rest), app_assoc. eapply IH; [|done]. eauto.
Qed.

Lemma main_invariant (I : list line → list string → state → Prop) :
  (∀ pre l e T,
     events pre = [] → edge_from_str l = Ok (Some (e, T)) →
     I (pre ++ [l]) [format_median 1] (first_state e T)) →
  (∀ h out s l s' w,
     I h out s → process s l = Ok (s', w) → I (h ++ [l]) (out ++ w) s') →
  ∀ fuel input s out, main fuel input = Finished s out → I input out s.
Proof.
  intros Hbase Hstep fuel input s out. unfold main.
  destruct (bootstrap fuel input) as [[[s0 rest]|x]|] eqn:Hb; [|done..].
  apply bootstrap_Ok in Hb as (pre & l & e & T & -> & Hpre & Hl & ->).
  intros H. rewrite (cons_middle l pre rest), app_assoc.
  eapply (run_invariant I Hstep); [|done].
  apply Hbase; [by apply events_eventless_all|done].
Qed.

Lemma run_Raised (rest : list line) : ∀ (s : state) (out : list string) e out',
  run s out rest = Raised e out' →
  ∃ h l rest' s', rest = h ++ l :: rest' ∧ run s out h = Finished s' out' ∧
                  process s' l = Raise e.
Proof.
  induction rest as [|l rest IH]; intros s out e out' H; [done|].
  simpl in H. destruct (process s l) as [[s1 w]|e1] eqn:Hp.
  - apply IH in H as (h & l' & rest' & s' & -> & Hrun & Hl').
    exists (l :: h), l', rest', s'. simpl. by rewrite Hp.
  - injection H as <- <-. by exists [], l, rest, s.
Qed.

(** An exception comes from [edge_from_str] in the first loop, nothing
    being written, or from the line that follows a prefix processed without
    one. *)
Lemma main_Raised (fuel : nat) (input : list line) (e : exn) (out : list string) :
  main fuel input = Raised e out →
  (e = ValueError ∧ out = [] ∧ ∃ l, l ∈ input ∧ edge_from_str l = Raise e) ∨
  ∃ h l rest s, input = h ++ l :: rest ∧ main fuel h = Finished s out ∧
                process s l = Raise e ∧ events h ≠ [].
Proof.
  unfold main.
  destruct (bootstrap fuel input) as [[[s0 rest0]|x]|] eqn:Hb; [| |done].
  2:{ intros [= <- <-]. left. by apply bootstrap_Raise in Hb as [-> ?]. }
  intros (h & l & rest & s & -> & Hrun & Hl)%run_Raised. right.
  apply bootstrap_Ok in Hb as Hb'.
  destruct Hb' as (pre & l0 & e0 & T0 & -> & Hpre & Hl0 & ->).
  exists (pre ++ l0 :: h), l, rest, s.
  split; [by rewrite <-app_assoc|]. split; [|split; [done|]].
  - assert (bootstrap fuel (pre ++ [l0])
            = Some (Ok (first_state e0 T0, []))) as Hb0.
    { clear -Hb Hpre Hl0. revert fuel Hb.
      induction Hpre as [|p pre Hp Hpre IH]; intros fuel Hb.
      - destruct fuel as [|fuel]; [done|]. simpl. by rewrite Hl0.
      - destruct fuel as [|fuel]; [done|]. simpl in *. rewrite Hp in *.
        by apply IH. }
    rewrite (cons_middle l0 pre h), app_assoc.
    rewrite (bootstrap_app _ _ h _ _ Hb0). done.
  - rewrite events_app, (events_eventless_all _ Hpre).
    change (l0 :: h) with ([l0] ++ h).
    by rewrite events_app, (events_event _ _ Hl0).
Qed.

Lemma run_halts (rest : list line) : ∀ (s : state) (out o : list string),
  run s out rest ≠ Spinning o.
Proof.
  induction rest as [|l rest IH]; intros s out o; simpl; [done|].
  destruct (process s l) as [[s' w]|e]; [apply IH|done].
Qed.

(** With an event in the input and fuel for the lines before it, the program
    comes to an end, normally or by an exception. *)
Lemma main_halts (fuel : nat) (input : list line) (o : list string) :
  events input ≠ [] → (length input ≤ fuel)%nat →
  main fuel input ≠ Spinning o.
Proof.
  intros He Hf. unfold main.
  destruct (bootstrap_enough input fuel He Hf) as [[[s rest]|x] ->]; [|done].
  apply run_halts.
Qed.

(** ** The first edge *)

Lemma median_Permutation (l1 l2 : list Z) : l1 ≡ₚ l2 → median l1 = median l2.
Proof.
  intros Hp. unfold median.
  assert (merge_sort Z.le l1 = merge_sort Z.le l2) as ->; [|done].
  apply (Sorted_unique Z.le); try (apply Sorted_merge_sort; apply _).
  by rewrite !merge_sort_Permutation.
Qed.

Lemma first_state_nodes (e : edge) :
  e.1 ≠ e.2 → <[e.2:=1]> ({[e.1 := 1]} : gmap string Z) = bump_ends e ∅.
Proof.
  intros Hne. unfold bump_ends, bump.
  rewrite lookup_empty, insert_empty, lookup_singleton_ne by done. done.
Qed.

Lemma first_state_reported (e : edge) (T : Z) : reported (first_state e T).
Proof.
  split; [|done]. simpl. unfold nodes_values.
  destruct (decide (e.1 = e.2)) as [<-|Hne].
  - rewrite insert_singleton_eq, map_to_list_singleton. done.
  - rewrite (median_Permutation _ [1; 1]); [done|].
    rewrite map_to_list_insert by (by rewrite lookup_singleton_ne).
    rewrite map_to_list_singleton. done.
Qed.

Lemma first_state_consistent (e : edge) (T : Z) :
  e.1 ≠ e.2 → consistent (edges (first_state e T)) (nodes (first_state e T)).
Proof.
  intros Hne. simpl. rewrite first_state_nodes by done.
  rewrite <-insert_empty. apply bump_ends_consistent; [done|].
  intros n. by rewrite incidence_empty.
Qed.

Lemma first_state_in_window (e : edge) (T : Z) :
  in_window [(e, T)] (first_state e T).
Proof.
  split; [done|]. intros e' t. simpl. unfold last_seen, time_window. simpl.
  destruct (decide (e = e')) as [<-|Hne].
  - rewrite lookup_singleton_eq. split; [|by intros [? _]].
    intros [= <-]. split; [done|lia].
  - rewrite lookup_singleton_ne by done. split; [done|by intros [? _]].
Qed.

Lemma events_first (pre : list line) (l : line) (ev : edge * Z) :
  events pre = [] → edge_from_str l = Ok (Some ev) →
  events (pre ++ [l]) = [ev].
Proof. intros Hpre Hl. by rewrite events_app, (events_event _ _ Hl), Hpre. Qed.

(** ** Every run *)

Lemma main_in_window (fuel : nat) (input : list line) (s : state)
    (out : list string) :
  main fuel input = Finished s out → in_window (events input) s.
Proof.
  apply (main_invariant (λ h _ s, in_window (events h) s)).
  - intros pre l e T Hpre Hl. rewrite (events_first _ _ _ Hpre Hl).
    apply first_state_in_window.
  - intros h o s0 l s' w HI Hp. rewrite events_app.
    by eapply process_in_window.
Qed.

Lemma main_reported (fuel : nat) (input : list line) (s : state)
    (out : list string) :
  main fuel input = Finished s out →
  reported s ∧ last out = Some (med_degree_str s) ∧
  length out = length (events input) ∧
  Forall (λ w, ∃ m k, w = format_median m ∧ Qeq m (k # 2)) out.
Proof.
  apply (main_invariant (λ h out s,
    reported s ∧ last out = Some (med_degree_str s) ∧
    length out = length (events h) ∧
    Forall (λ w, ∃ m k, w = format_median m ∧ Qeq m (k # 2)) out)).
  - intros pre l e T Hpre Hl. rewrite (events_first _ _ _ Hpre Hl).
    split; [apply first_state_reported|]. split; [done|]. split; [done|].
    apply Forall_singleton. by exists 1%Q, 2.
  - intros h o s0 l s' w (Hr & Hlast & Hlen & Hall) Hp.
    destruct (process_reported _ _ _ _ Hr Hp) as [Hr' ->].
    split; [done|]. rewrite events_app, events_single, !length_app, Hlen.
    destruct (event_of l) as [ev|] eqn:Hl.
    + rewrite last_snoc. split; [done|]. split; [done|].
      apply Forall_app. split; [done|]. apply Forall_singleton.
      destruct Hr' as [Hm' Hstr']. destruct (median_half _ _ Hm') as [k Hk].
      by exists (median_degree s'), k.
    + rewrite app_nil_r. split; [|done].
      apply process_Ok in Hp as [(_ & -> & _)|(e & T & He & _)]; [done|].
      unfold event_of in Hl. by rewrite He in Hl.
Qed.

Lemma proper_start_prefix (h rest : list line) :
  events h ≠ [] → proper_start (h ++ rest) → proper_start h.
Proof.
  unfold proper_start. rewrite events_app. by destruct (events h).
Qed.

Lemma main_consistent (fuel : nat) (input : list line) (s : state)
    (out : list string) :
  proper_start input → main fuel input = Finished s out →
  consistent (edges s) (nodes s).
Proof.
  intros Hstart Hmain.
  cut (events input ≠ [] ∧ (proper_start input → consistent (edges s) (nodes s))).
  { intros [_ H]. by apply H. }
  revert Hmain. clear Hstart.
  apply (main_invariant (λ h _ s,
    events h ≠ [] ∧ (proper_start h → consistent (edges s) (nodes s)))).
  - intros pre l e T Hpre Hl. rewrite (events_first _ _ _ Hpre Hl).
    split; [done|]. unfold proper_start.
    rewrite (events_first _ _ _ Hpre Hl). simpl.
    apply first_state_consistent.
  - intros h o s0 l s' w [Hne HI] Hp. split.
    + rewrite events_app. by destruct (events h).
    + intros Hstart%proper_start_prefix; [|done].
      eapply process_consistent_Ok; [|done]. by apply HI.
Qed.


(** When, besides, every line is plain, there is no exception. *)
Lemma main_no_exception (fuel : nat) (input : list line) (e : exn)
    (out : list string) :
  proper_start input → Forall plain input → main fuel input ≠ Raised e out.
Proof.
  intros Hstart Hplain
    [(_ & _ & l & Hin & Hl)|(h & l & rest & s & -> & Hmain & Hp & Hne)]%main_Raised.
  - rewrite Forall_forall in Hplain. apply Hplain in Hin.
    unfold plain in Hin. by rewrite Hl in Hin.
  - apply proper_start_prefix in Hstart; [|done].
    apply Forall_app in Hplain as [_ [Hl _]%Forall_cons].
    destruct (process_plain s l (main_consistent _ _ _ _ Hstart Hmain) Hl)
      as [r Hr].
    congruence.
Qed.

(** ** Degrees *)

Lemma edges_containing_insert_new (n : string) (e : edge) (t : Z)
    (E : gmap edge Z) :
  E !! e = None →
  edges_containing n (<[e:=t]> E) =
  ((if decide (e.1 = n ∨ e.2 = n) then 1 else 0) + edges_containing n E)%nat.
Proof.
  intros He. unfold edges_containing.
  rewrite map_filter_insert. simpl. case_decide.
  - rewrite map_size_insert_None; [done|].
    by apply map_lookup_filter_None_2; left.
  - by rewrite delete_id.
Qed.





(** ** The window *)

Lemma update_advance (s s' : state) (e : edge) (T : Z) (w : list string) :
  latest_time s < T → update s e T = Ok (s', w) →
  latest_time s' = T ∧
  ∃ N, sweep T (<[e:=T]> (edges s)) N = Ok (edges s', nodes s').
Proof.
  intros Hlt. update_cases s T; try lia.
  intros H.
  apply bind_Ok in H as ([latest g] & Hsw & H).
  apply bind_Ok in Hsw as ([E' N'] & Hsw & [= <- <-]).
  apply bind_Ok in H as (m & _ & [= <- <-]). simpl.
  split; [done|]. rewrite add_edge_table in Hsw. eauto.
Qed.

(** C4: after every line, the edge table holds exactly the pairs whose most
    recent transaction is less than 60 seconds behind the latest time, each
    with that most recent time; a line that moves the latest time to T, at
    least 60 seconds into the year 1, is processed without an exception when
    the first transaction of the run was between two different users; and
    when a line moves the latest time to T, every edge whose time is at most
    T - 60, equal included, leaves the table while the others stay as they
    are. *)
Theorem window_invariant (fuel : nat) (input : list line) (s : state)
    (out : list string) :
  main fuel input = Finished s out →
  clock (events input) = Some (latest_time s) ∧
  (∀ e t, edges s !! e = Some t ↔
          last_seen e (events input) = Some t ∧ latest_time s - 60 < t) ∧
  (∀ l e T,
     edge_from_str l = Ok (Some (e, T)) → latest_time s < T →
     (proper_start input → 60 ≤ T → ∃ s' w, process s l = Ok (s', w)) ∧
     ∀ s' w,
       process s l = Ok (s', w) →
       latest_time s' = T ∧
       ∀ e' t, <[e:=T]> (edges s) !! e' = Some t →
               (t ≤ T - 60 → edges s' !! e' = None) ∧
               (T - 60 < t → edges s' !! e' = Some t)).
Proof.
  intros Hmain. destruct (main_in_window _ _ _ _ Hmain) as [Hc HE].
  split; [done|]. split; [done|].
  intros l e T Hl Hlt. split.
  { intros Hstart HT.
    pose proof (main_consistent _ _ _ _ Hstart Hmain) as HN.
    destruct (update_consistent s e T HN) as (s' & w & Hp & _); [done|].
    exists s', w. by rewrite (process_event _ _ _ _ Hl). }
  intros s' w Hp. rewrite (process_event _ _ _ _ Hl) in Hp.
  destruct (update_advance _ _ _ _ _ Hlt Hp) as (HT & N & Hsw).
  split; [done|]. intros e' t He'.
  split; intros Ht.
  - destruct (edges s' !! e') as [u|] eqn:Hu; [|done].
    apply (sweep_lookup _ _ _ _ _ Hsw) in Hu as [Hu Hw].
    unfold time_window in Hw. rewrite He' in Hu. injection Hu as <-. lia.
  - by apply (sweep_lookup _ _ _ _ _ Hsw).
Qed.

(** A-B at 15:00:00 and B-C at 15:00:59, then A-C at 15:01:00: the edge
    (A, B), exactly 60 seconds behind, leaves the table, the edge (B, C)
    stays. *)
Lemma window_invariant_witness :
  ∃ s out s' w,
    main 1 [txn 0 0 "A" "B"; txn 0 59 "B" "C"] = Finished s out ∧
    clock (events [txn 0 0 "A" "B"; txn 0 59 "B" "C"]) = Some (txn_time 0 59) ∧
    last_seen ("A", "B") (events [txn 0 0 "A" "B"; txn 0 59 "B" "C"])
    = Some (txn_time 0 0) ∧
    edges s !! ("A", "B") = Some (txn_time 0 0) ∧
    process s (txn 1 0 "A" "C") = Ok (s', w) ∧
    latest_time s' = txn_time 1 0 ∧
    edges s' !! ("A", "B") = None ∧
    edges s' !! ("B", "C") = Some (txn_time 0 59) ∧
    edges s' !! ("A", "C") = Some (txn_time 1 0).
Proof.
  pose (s := State (txn_time 0 59)
               (<[("B", "C") := txn_time 0 59]>
                  {[("A", "B") := txn_time 0 0]})
               (<["C" := 1]> (<["B" := 2]> {["A" := 1]}))
               1 (format_median 1)).
  assert (main 1 [txn 0 0 "A" "B"; txn 0 59 "B" "C"]
          = Finished s [format_median 1; format_median 1]) as Hmain
    by (vm_compute; reflexivity).
  destruct (window_invariant 1 _ s _ Hmain) as (Hc & HE & Hstep).
  destruct (Hstep (txn 1 0 "A" "C") ("A", "C") (txn_time 1 0)) as [Hret Hadv];
    [vm_compute; reflexivity|vm_compute; reflexivity|].
  destruct Hret as (s' & w & Hp);
    [vm_compute; discriminate|vm_compute; discriminate|].
  destruct (Hadv s' w Hp) as [HT Hev].
  exists s, [format_median 1; format_median 1], s', w.
  split; [exact Hmain|]. split; [exact Hc|].
  assert (edges s !! ("A", "B") = Some (txn_time 0 0)) as HAB
    by (vm_compute; reflexivity).
  split; [exact (proj1 (proj1 (HE _ _) HAB))|].
  split; [exact HAB|]. split; [exact Hp|]. split; [exact HT|].
  split; [|split].
  - apply (Hev ("A", "B") (txn_time 0 0)); [vm_compute; reflexivity|].
    vm_compute. discriminate.
  - apply (Hev ("B", "C") (txn_time 0 59)); vm_compute; reflexivity.
  - apply (Hev ("A", "C") (txn_time 1 0)); vm_compute; reflexivity.
Defined.

(** ** The median *)

Lemma state_eta (s : state) :
  State (latest_time s) (edges s) (nodes s) (median_degree s)
        (med_degree_str s) = s.
Proof. by destruct s. Qed.

Lemma main_snoc (fuel : nat) (input : list line) (l : line) (s s' : state)
    (out w : list string) :
  main fuel input = Finished s out → process s l = Ok (s', w) →
  main fuel (input ++ [l]) = Finished s' (out ++ w).
Proof.
  intros Hmain Hp. rewrite (main_app _ _ _ _ _ Hmain). simpl. by rewrite Hp.
Qed.

(** C6: after every line, the stored median is the median, by the book, of
    the degrees in the node table (at least one of them), and the last line
    written is that median, formatted; and the step of every further line
    with an event returns, when the first transaction of the run was between
    two different users and the line does not move the latest time into the
    first 60 seconds of the year 1, and writes one line, the formatted median,
    by the book, of the degrees of the node table the step leaves. *)
Theorem median_correct (fuel : nat) (input : list line) (s : state)
    (out : list string) :
  main fuel input = Finished s out →
  is_median (nodes_values (nodes s)) (median_degree s) ∧
  last out = Some (format_median (median_degree s)) ∧
  (∀ l e T,
     edge_from_str l = Ok (Some (e, T)) →
     (proper_start input → (latest_time s < T → 60 ≤ T) →
      ∃ s' w, process s l = Ok (s', w)) ∧
     ∀ s' w,
       process s l = Ok (s', w) →
       w = [format_median (median_degree s')] ∧
       is_median (nodes_values (nodes s')) (median_degree s') ∧
       main fuel (input ++ [l])
       = Finished s' (out ++ [format_median (median_degree s')])).
Proof.
  intros Hmain.
  destruct (main_reported _ _ _ _ Hmain) as (Hrep & Hlast & _).
  pose proof Hrep as [Hm Hstr].
  split; [by apply median_spec|]. split; [by rewrite Hlast, Hstr|].
  intros l e T Hl. split.
  { intros Hstart HT.
    pose proof (main_consistent _ _ _ _ Hstart Hmain) as HN.
    destruct (update_consistent s e T HN) as (s' & w & Hp & _); [done|].
    exists s', w. by rewrite (process_event _ _ _ _ Hl). }
  intros s' w Hp. pose proof Hp as Hu.
  rewrite (process_event _ _ _ _ Hl) in Hu.
  destruct (update_reported _ _ _ _ _ Hrep Hu) as [[Hm' Hstr'] ->].
  rewrite Hstr' in *.
  split; [done|]. split; [by apply median_spec|].
  by apply (main_snoc _ _ _ _ _ _ _ Hmain).
Qed.

(** A-B and B-C, then C-D: the degrees become 1, 2, 2 and 1 and the step
    writes 1.50. *)
Lemma median_correct_witness :
  ∃ s out s' w,
    main 1 [txn 0 0 "A" "B"; txn 0 1 "B" "C"] = Finished s out ∧
    last out = Some ("1.00" +:+ CRLF) ∧
    process s (txn 0 2 "C" "D") = Ok (s', w) ∧
    w = ["1.50" +:+ CRLF] ∧
    nodes s' = <["D" := 1]> (<["C" := 2]> (<["B" := 2]> {["A" := 1]})) ∧
    Qeq (median_degree s') (3 # 2) ∧
    is_median (nodes_values (nodes s')) (median_degree s').
Proof.
  pose (s := State (txn_time 0 1)
               (<[("B", "C") := txn_time 0 1]>
                  {[("A", "B") := txn_time 0 0]})
               (<["C" := 1]> (<["B" := 2]> {["A" := 1]}))
               1 (format_median 1)).
  assert (main 1 [txn 0 0 "A" "B"; txn 0 1 "B" "C"]
          = Finished s [format_median 1; format_median 1]) as Hmain
    by (vm_compute; reflexivity).
  destruct (median_correct 1 _ s _ Hmain) as (_ & Hlast & Hstep).
  destruct (Hstep (txn 0 2 "C" "D") ("C", "D") (txn_time 0 2)) as [Hret Hw];
    [vm_compute; reflexivity|].
  destruct Hret as (s' & w & Hp); [vm_compute; discriminate| |].
  { intros _. vm_compute. discriminate. }
  destruct (Hw s' w Hp) as (-> & Hmed & _).
  assert (Ok (s', [format_median (median_degree s')])
          = Ok (State (txn_time 0 2)
                  (<[("C", "D") := txn_time 0 2]>
                     (<[("B", "C") := txn_time 0 1]>
                        {[("A", "B") := txn_time 0 0]}))
                  (<["D" := 1]>
                     (<["C" := 2]> (<["B" := 2]> {["A" := 1]})))
                  (3 # 2) ("1.50" +:+ CRLF), ["1.50" +:+ CRLF])) as Heq
    by (rewrite <-Hp; vm_compute; reflexivity).
  injection Heq as Hs' Hline.
  exists s, [format_median 1; format_median 1], s',
         [format_median (median_degree s')].
  split; [exact Hmain|]. split; [vm_compute; reflexivity|].
  split; [exact Hp|]. split; [by rewrite Hline|].
  split; [|split; [|exact Hmed]]; rewrite Hs'.
  - reflexivity.
  - reflexivity.
Defined.

(** ** Lines that change nothing *)

(** C7: a line for an edge of the table, at a time inside the window and not
    after the time stored for the edge, leaves the whole state as it is, the
    degrees and the median included, and writes the line written last once
    more. *)
Theorem replay_idempotent (fuel : nat) (input : list line) (s : state)
    (out : list string) (l : line) (e : edge) (T t : Z) :
  main fuel input = Finished s out →
  edge_from_str l = Ok (Some (e, T)) →
  edges s !! e = Some t → T ≤ t → latest_time s - 60 < T →
  ∃ x, last out = Some x ∧ process s l = Ok (s, [x]) ∧
       main fuel (input ++ [l]) = Finished s (out ++ [x]).
Proof.
  intros Hmain Hl He HT Hw.
  destruct (main_reported _ _ _ _ Hmain) as ([Hm Hstr] & Hlast & _).
  destruct (main_in_window _ _ _ _ Hmain) as [Hc HE].
  assert (t ≤ latest_time s) as Ht.
  { apply HE in He as [(c & Hc' & ?)%last_seen_le_clock _]. congruence. }
  assert (process s l = Ok (s, [med_degree_str s])) as Hp.
  { rewrite (process_event _ _ _ _ Hl). update_cases s T; try lia.
    - assert (T = t) as <- by lia.
      unfold add_edge. rewrite He, insert_id by done. simpl.
      rewrite Hm. simpl. rewrite <-Hstr, state_eta. done.
    - rewrite He. destruct (Z.ltb_spec t T) as [?|_]; [lia|].
      rewrite <-Hstr, state_eta. done. }
  exists (med_degree_str s). split; [done|]. split; [done|].
  by eapply main_snoc.
Qed.

Lemma replay_idempotent_witness :
  ∃ x, last [format_median 1; format_median 1] = Some x ∧
       process (State (txn_time 0 30)
                  (<[("B", "C") := txn_time 0 30]>
                     {[("A", "B") := txn_time 0 0]})
                  (<["C" := 1]> (<["B" := 2]> {["A" := 1]}))
                  1 (format_median 1))
               (txn 0 0 "B" "A")
       = Ok (State (txn_time 0 30)
               (<[("B", "C") := txn_time 0 30]>
                  {[("A", "B") := txn_time 0 0]})
               (<["C" := 1]> (<["B" := 2]> {["A" := 1]}))
               1 (format_median 1), [x]) ∧
       main 1 ([txn 0 0 "A" "B"; txn 0 30 "B" "C"] ++ [txn 0 0 "B" "A"])
       = Finished (State (txn_time 0 30)
                     (<[("B", "C") := txn_time 0 30]>
                        {[("A", "B") := txn_time 0 0]})
                     (<["C" := 1]> (<["B" := 2]> {["A" := 1]}))
                     1 (format_median 1))
                  ([format_median 1; format_median 1] ++ [x]).
Proof.
  apply (replay_idempotent 1 [txn 0 0 "A" "B"; txn 0 30 "B" "C"] _ _
           (txn 0 0 "B" "A") ("A", "B") (txn_time 0 0) (txn_time 0 0)).
  - vm_compute. reflexivity.
  - vm_compute. reflexivity.
  - vm_compute. reflexivity.
  - lia.
  - vm_compute. reflexivity.
Defined.

(** C8: a line whose time is 60 seconds or more behind the latest time leaves
    the whole state as it is and writes the line written last once more. *)
Theorem outside_window_noop (fuel : nat) (input : list line) (s : state)
    (out : list string) (l : line) (e : edge) (T : Z) :
  main fuel input = Finished s out →
  edge_from_str l = Ok (Some (e, T)) → T - latest_time s ≤ - 60 →
  ∃ x, last out = Some x ∧ process s l = Ok (s, [x]) ∧
       main fuel (input ++ [l]) = Finished s (out ++ [x]).
Proof.
  intros Hmain Hl HT.
  destruct (main_reported _ _ _ _ Hmain) as (_ & Hlast & _).
  assert (process s l = Ok (s, [med_degree_str s])) as Hp.
  { rewrite (process_event _ _ _ _ Hl). update_cases s T; try lia. done. }
  exists (med_degree_str s). split; [done|]. split; [done|].
  by eapply main_snoc.
Qed.

Lemma outside_window_noop_witness :
  ∃ x, last [format_median 1] = Some x ∧
       process (first_state ("A", "B") (txn_time 2 0)) (txn 0 59 "C" "D")
       = Ok (first_state ("A", "B") (txn_time 2 0), [x]) ∧
       main 1 ([txn 2 0 "A" "B"] ++ [txn 0 59 "C" "D"])
       = Finished (first_state ("A", "B") (txn_time 2 0))
                  ([format_median 1] ++ [x]).
Proof.
  apply (outside_window_noop 1 [txn 2 0 "A" "B"]
           (first_state ("A", "B") (txn_time 2 0)) [format_median 1]
           (txn 0 59 "C" "D") ("C", "D") (txn_time 0 59)).
  - vm_compute. reflexivity.
  - vm_compute. reflexivity.
  - vm_compute. discriminate.
Defined.

(** ** The first loop *)

(** C2 fails on the code: on an input without lines the first loop is still
    running whatever the fuel, nothing being written. *)
Theorem empty_input_spins : ∀ fuel, main fuel [] = Spinning [].
Proof. intros fuel. unfold main. by rewrite bootstrap_None. Qed.

(** The same on every input whose lines all give no event. *)
Lemma eventless_input_spins (fuel : nat) (input : list line) :
  Forall (λ l, edge_from_str l = Ok None) input →
  main fuel input = Spinning [].
Proof. intros H. unfold main. by rewrite bootstrap_None. Qed.

(** ** A first transaction of a user with themselves *)

(** C9 fails on the code: after the first transaction X-X, a transaction
    60 seconds later raises [KeyError] in the eviction; no line is written
    for it. *)
Theorem first_self_pair_raises :
  main 1 [txn 0 0 "X" "X"; txn 1 0 "A" "B"]
  = Raised KeyError [format_median 1].
Proof. vm_compute. reflexivity. Qed.

(** Without an exception, one line per event is written. *)
Lemma one_line_per_event (fuel : nat) (input : list line) (s : state)
    (out : list string) :
  main fuel input = Finished s out → length out = length (events input).
Proof. intros Hmain. by destruct (main_reported _ _ _ _ Hmain) as (_ & _ & ? & _). Qed.

(** ** The scenario of three transactions *)

Lemma update_later (s : state) (e : edge) (T : Z) :
  latest_time s < T →
  update s e T =
  g ← sweep T (add_edge e T (edges s) (nodes s)).1 (add_edge e T (edges s) (nodes s)).2;
  m ← median (nodes_values g.2);
  Ok (State T g.1 g.2 m (format_median m), [format_median m]).
Proof.
  intros Hlt. update_cases s T; try lia.
  destruct (sweep T _ _) as [g|]; done.
Qed.

Lemma sweep_early (T : Z) (E : gmap edge Z) (N : gmap string Z) :
  T < time_window → sweep T E N = Raise OverflowError.
Proof.
  intros HT. unfold sweep.
  by destruct (Z.ltb_spec (T - time_window) 0) as [_|?]; [|lia].
Qed.

Lemma sweep_late (T : Z) (E : gmap edge Z) (N : gmap string Z) :
  time_window ≤ T →
  sweep T E N = evict (evict_edges (T - time_window) E) E N.
Proof.
  intros HT. unfold sweep.
  by destruct (Z.ltb_spec (T - time_window) 0) as [?|_]; [lia|].
Qed.

Lemma filter_keep {A} (P : A → Prop) `{∀ x, Decision (P x)} (x : A) (l : list A) :
  P x → filter P (x :: l) = x :: filter P l.
Proof. intros HP. by rewrite filter_cons, decide_True. Qed.

Lemma filter_skip {A} (P : A → Prop) `{∀ x, Decision (P x)} (x : A) (l : list A) :
  ¬ P x → filter P (x :: l) = filter P l.
Proof. intros HP. by rewrite filter_cons, decide_False. Qed.

(** C1, amended: the transactions A-B at t0, B-C at t0 + 10 and A-C at
    t0 + 70 give the three lines 1.00, 1.00 and 1.00; the third evicts the
    edges (A, B) and (B, C) and leaves the edge (A, C) alone, with the nodes A
    and C of degree 1. This for every t0 from 50 seconds after the start of
    the year 1 on; before that the second transaction raises [OverflowError]
    after the first line. *)
Theorem scenario_run (fuel : nat) (f1 f2 f3 : fields) (t0 : Z) :
  datetime f1 = Ok t0 → datetime f2 = Ok (t0 + 10) →
  datetime f3 = Ok (t0 + 70) →
  main (S fuel) (scenario f1 f2 f3)
  = if 50 <=? t0 then
      Finished
        (State (t0 + 70) {[("A", "C") := t0 + 70]} (<["C" := 1]> {["A" := 1]})
               1 ("1.00" +:+ CRLF))
        ["1.00" +:+ CRLF; "1.00" +:+ CRLF; "1.00" +:+ CRLF]
    else Raised OverflowError ["1.00" +:+ CRLF].
Proof.
  intros H1 H2 H3.
  assert (edge_from_str (Matched (Some f1) "A" "B") = Ok (Some (("A", "B"), t0)))
    as Hl1 by (simpl; rewrite H1; reflexivity).
  assert (edge_from_str (Matched (Some f2) "B" "C")
          = Ok (Some (("B", "C"), t0 + 10)))
    as Hl2 by (simpl; rewrite H2; reflexivity).
  assert (edge_from_str (Matched (Some f3) "A" "C")
          = Ok (Some (("A", "C"), t0 + 70)))
    as Hl3 by (simpl; rewrite H3; reflexivity).
  unfold main, scenario. cbn [bootstrap readline]. rewrite Hl1.
  cbn [run]. rewrite (process_event _ _ _ _ Hl2).
  rewrite update_later by (simpl; lia).
  destruct (Z.leb_spec 50 t0) as [Ht0|Ht0].
  - pose (s2 := State (t0 + 10)
                  (<[("B", "C") := t0 + 10]> {[("A", "B") := t0]})
                  (<["C" := 1]> (<["B" := 2]> {["A" := 1]}))
                  1 ("1.00" +:+ CRLF)).
    assert (update s2 ("A", "C") (t0 + 70)
            = Ok (State (t0 + 70) {[("A", "C") := t0 + 70]}
                        (<["C" := 1]> {["A" := 1]}) 1 ("1.00" +:+ CRLF),
                  ["1.00" +:+ CRLF])) as Hu3.
    { rewrite update_later by (simpl; lia).
      rewrite sweep_late by (unfold time_window; lia).
      unfold evict_edges.
      assert (map_to_list (add_edge ("A", "C") (t0 + 70) (edges s2) (nodes s2)).1
              = [(("A", "C"), t0 + 70); (("A", "B"), t0); (("B", "C"), t0 + 10)])
        as -> by (vm_compute; reflexivity).
      rewrite filter_skip by (unfold time_window; simpl; lia).
      rewrite !filter_keep, filter_nil by (unfold time_window; simpl; lia).
      vm_compute. reflexivity. }
    rewrite sweep_late by (unfold time_window; lia).
    unfold evict_edges.
    assert (map_to_list (add_edge ("B", "C") (t0 + 10)
                           (edges (first_state ("A", "B") t0))
                           (nodes (first_state ("A", "B") t0))).1
            = [(("A", "B"), t0); (("B", "C"), t0 + 10)]) as ->
      by (vm_compute; reflexivity).
    rewrite !filter_skip, filter_nil by (unfold time_window; simpl; lia).
    change (evict _ _ _ ≫= _) with (Ok (s2, ["1.00" +:+ CRLF])).
    cbn [run]. rewrite (process_event _ _ _ _ Hl3), Hu3. reflexivity.
  - rewrite sweep_early by (unfold time_window; lia). reflexivity.
Qed.

Lemma scenario_run_witness :
  datetime (Fields 2016 7 6 15 45 54) = Ok 63603416754 ∧
  main 1 (scenario (Fields 2016 7 6 15 45 54) (Fields 2016 7 6 15 46 4)
                   (Fields 2016 7 6 15 47 4))
  = Finished
      (State 63603416824 {[("A", "C") := 63603416824]}
             (<["C" := 1]> {["A" := 1]}) 1 ("1.00" +:+ CRLF))
      ["1.00" +:+ CRLF; "1.00" +:+ CRLF; "1.00" +:+ CRLF].
Proof.
  split; [vm_compute; reflexivity|].
  exact (scenario_run 0 (Fields 2016 7 6 15 45 54) (Fields 2016 7 6 15 46 4)
           (Fields 2016 7 6 15 47 4) 63603416754 eq_refl eq_refl eq_refl).
Defined.

(** C1, as stated, fails: the second line written is not 1.50. *)
Lemma scenario_second_line :
  written (main 1 (scenario (Fields 2016 7 6 15 45 54)
                            (Fields 2016 7 6 15 46 4)
                            (Fields 2016 7 6 15 47 4)))
  ≠ ["1.00" +:+ CRLF; "1.50" +:+ CRLF; "1.00" +:+ CRLF].
Proof. vm_compute. discriminate. Qed.

(** ** A transaction of a user with themselves *)

(** C10 fails on the code: when the first transaction of a run is X-X, the
    pair (X, X) comes into the empty edge table and X is left with degree 1,
    not 2, the two ends of the pair being one key of the dictionary the
    first loop builds. *)
Theorem first_self_pair_degree :
  ∀ fuel,
    main (S fuel) [txn 0 0 "X" "X"]
    = Finished (first_state ("X", "X") (txn_time 0 0)) [format_median 1] ∧
    edges (first_state ("X", "X") (txn_time 0 0)) !! ("X", "X")
    = Some (txn_time 0 0) ∧
    edges_containing "X" (edges (first_state ("X", "X") (txn_time 0 0)))
    = 1%nat ∧
    nodes (first_state ("X", "X") (txn_time 0 0)) !! "X" = Some 1.
Proof.
  intros fuel. split; [reflexivity|].
  split; [vm_compute; reflexivity|]. split; vm_compute; reflexivity.
Qed.

(** ** The format *)

Lemma digit_spec (d : Z) :
  0 ≤ d ≤ 9 → digit d = String (digit_char d) EmptyString.
Proof.
  intros Hd.
  assert (d = 0 ∨ d = 1 ∨ d = 2 ∨ d = 3 ∨ d = 4 ∨ d = 5 ∨ d = 6 ∨ d = 7
          ∨ d = 8 ∨ d = 9) as H by lia.
  repeat destruct H as [->|H]; try subst d; reflexivity.
Qed.

Lemma py_int_nonneg (x : Q) :
  (0 <= x)%Q →
  0 ≤ py_int x ∧ (inject_Z (py_int x) <= x)%Q ∧ (x < inject_Z (py_int x + 1))%Q.
Proof.
  destruct x as [a b]. unfold Qle, Qlt, py_int, inject_Z. simpl.
  intros Ha. assert (0 ≤ a) as Ha' by lia.
  rewrite Z.quot_div_nonneg by lia.
  pose proof (Z.div_mod a (Z.pos b) ltac:(lia)) as Hdm.
  pose proof (Z.mod_pos_bound a (Z.pos b) ltac:(lia)) as Hb.
  pose proof (Z.div_pos a (Z.pos b) Ha' ltac:(lia)) as Hq.
  split; [done|]. split; nia.
Qed.

Lemma py_int_nonpos (x : Q) :
  (x <= 0)%Q →
  py_int x ≤ 0 ∧ (inject_Z (py_int x - 1) < x)%Q ∧ (x <= inject_Z (py_int x))%Q.
Proof.
  destruct x as [a b]. unfold Qle, Qlt, py_int, inject_Z. simpl.
  intros Ha. assert (a ≤ 0) as Ha' by lia.
  assert (a ÷ Z.pos b = - (- a ÷ Z.pos b)) as -> by (rewrite Z.quot_opp_l; lia).
  rewrite Z.quot_div_nonneg by lia.
  pose proof (Z.div_mod (- a) (Z.pos b) ltac:(lia)) as Hdm.
  pose proof (Z.mod_pos_bound (- a) (Z.pos b) ltac:(lia)) as Hb.
  pose proof (Z.div_pos (- a) (Z.pos b) ltac:(lia) ltac:(lia)) as Hq.
  split; [lia|]. split; nia.
Qed.

Lemma fmt2_nonneg (k : Z) :
  0 ≤ k →
  fmt2 k = pretty (Z.to_N (k / 100))
           +:+ "."
           +:+ String (digit_char (k / 10 mod 10))
                 (String (digit_char (k mod 10)) EmptyString).
Proof.
  intros Hk. unfold fmt2.
  destruct (Z.ltb_spec k 0) as [?|_]; [lia|].
  rewrite Z.abs_eq by done.
  rewrite !digit_spec.
  - replace (k mod 100 / 10) with (k / 10 mod 10); [done|].
    pose proof (Z.div_mod k 100 ltac:(lia)).
    pose proof (Z.mod_pos_bound k 100 ltac:(lia)).
    pose proof (Z.div_mod k 10 ltac:(lia)).
    pose proof (Z.mod_pos_bound k 10 ltac:(lia)).
    pose proof (Z.div_mod (k / 10) 10 ltac:(lia)).
    pose proof (Z.mod_pos_bound (k / 10) 10 ltac:(lia)).
    pose proof (Z.div_mod (k mod 100) 10 ltac:(lia)).
    pose proof (Z.mod_pos_bound (k mod 100) 10 ltac:(lia)).
    lia.
  - pose proof (Z.mod_pos_bound k 10 ltac:(lia)). lia.
  - pose proof (Z.mod_pos_bound k 100 ltac:(lia)).
    pose proof (Z.div_mod (k mod 100) 10 ltac:(lia)).
    pose proof (Z.mod_pos_bound (k mod 100) 10 ltac:(lia)).
    lia.
Qed.

Lemma main_Spinning (fuel : nat) (input : list line) (out : list string) :
  main fuel input = Spinning out → out = [].
Proof.
  unfold main. destruct (bootstrap fuel input) as [[[s rest]|x]|]; [|done|].
  - intros H. by apply run_halts in H.
  - by intros [= <-].
Qed.

Lemma written_formatted (fuel : nat) (input : list line) :
  Forall (λ w, ∃ m k, w = format_median m ∧ Qeq m (k # 2))
         (written (main fuel input)).
Proof.
  destruct (main fuel input) as [s out|e out|out] eqn:Hmain; simpl.
  - by destruct (main_reported _ _ _ _ Hmain) as (_ & _ & _ & ?).
  - apply main_Raised in Hmain
      as [(_ & -> & _)|(h & l & rest & s & _ & Hmain & _)]; [constructor|].
    by destruct (main_reported _ _ _ _ Hmain) as (_ & _ & _ & ?).
  - apply main_Spinning in Hmain as ->. constructor.
Qed.

Lemma py_int_349 (m : Q) :
  (349 # 100 <= m)%Q → (m < 350 # 100)%Q → py_int (m * inject_Z 100) = 349.
Proof.
  destruct m as [a b]. unfold py_int, Qle, Qlt, inject_Z. simpl.
  rewrite Pos.mul_1_r. intros Hlo Hhi.
  rewrite Z.quot_div_nonneg by lia.
  symmetry. apply (Z.div_unique _ _ 349 (a * 100 - 349 * Z.pos b)); lia.
Qed.

(** C5: the line written for a median m, m not negative, shows the integer k
    with k <= 100 m < k + 1, that is 100 m cut toward zero, as the decimal
    digits of k / 100, a point and the two last digits of k, followed by CR
    and LF; so 3 gives 3.00, 3.5 gives 3.50 and every m from 3.49 up to but
    not including 3.50 gives 3.49; and every line written in a run is such a
    line, for a median that is a whole number of halves. *)
Theorem format_median_truncates :
  (∀ m : Q, (0 <= m)%Q →
     ∃ k : Z,
       0 ≤ k ∧ (inject_Z k <= m * inject_Z 100)%Q ∧
       (m * inject_Z 100 < inject_Z (k + 1))%Q ∧
       format_median m
       = (pretty (Z.to_N (k / 100)) +:+ "."
          +:+ String (digit_char (k / 10 mod 10))
                (String (digit_char (k mod 10)) EmptyString)) +:+ CRLF) ∧
  (∀ x : Q, (x <= 0)%Q →
     py_int x ≤ 0 ∧ (inject_Z (py_int x - 1) < x)%Q ∧
     (x <= inject_Z (py_int x))%Q) ∧
  format_median (3 # 1) = "3.00" +:+ CRLF ∧
  format_median (7 # 2) = "3.50" +:+ CRLF ∧
  (∀ m : Q, (349 # 100 <= m)%Q → (m < 350 # 100)%Q →
            format_median m = "3.49" +:+ CRLF) ∧
  (∀ fuel input,
     Forall (λ w, ∃ m k, w = format_median m ∧ Qeq m (k # 2))
            (written (main fuel input))).
Proof.
  split; [|split; [apply py_int_nonpos|
                   split; [reflexivity|split; [reflexivity|split]]]].
  - intros m Hm. exists (py_int (m * inject_Z 100)).
    assert (0 <= m * inject_Z 100)%Q as H100.
    { apply Qmult_le_0_compat; [done|]. by unfold Qle. }
    destruct (py_int_nonneg _ H100) as (Hk & Hlo & Hhi).
    split; [done|]. split; [done|]. split; [done|].
    unfold format_median. by rewrite fmt2_nonneg.
  - intros m Hlo Hhi. unfold format_median.
    by rewrite (py_int_349 m Hlo Hhi).
  - apply written_formatted.
Qed.

Lemma format_median_truncates_witness :
  (0 <= 5 # 2)%Q ∧
  (∃ k : Z,
     0 ≤ k ∧ (inject_Z k <= (5 # 2) * inject_Z 100)%Q ∧
     ((5 # 2) * inject_Z 100 < inject_Z (k + 1))%Q ∧
     format_median (5 # 2)
     = (pretty (Z.to_N (k / 100)) +:+ "."
        +:+ String (digit_char (k / 10 mod 10))
              (String (digit_char (k mod 10)) EmptyString)) +:+ CRLF) ∧
  ((349 # 100 <= 34999 # 10000)%Q ∧ (34999 # 10000 < 350 # 100)%Q ∧
   format_median (34999 # 10000) = "3.49" +:+ CRLF).
Proof.
  assert (0 <= 5 # 2)%Q as H0 by (unfold Qle; simpl; lia).
  assert (349 # 100 <= 34999 # 10000)%Q as H1 by (unfold Qle; simpl; lia).
  assert (34999 # 10000 < 350 # 100)%Q as H2 by (unfold Qlt; simpl; lia).
  destruct format_median_truncates as (Ha & _ & _ & _ & Hb & _).
  split; [exact H0|]. split; [exact (Ha _ H0)|].
  split; [exact H1|]. split; [exact H2|]. exact (Hb _ H1 H2).
Defined.

(** * Further properties of the code *)

(** ** The direction of a transaction *)

Lemma sorted_pair_comm (a b : string) : sorted_pair a b = sorted_pair b a.
Proof.
  unfold sorted_pair, String.ltb.
  rewrite (String.compare_antisym a b).
  destruct (String.compare b a) eqn:Hc; simpl; try done.
  apply String.compare_eq_iff in Hc. by subst.
Qed.

Lemma edge_from_str_swap (l : line) :
  edge_from_str (swap_ends l) = edge_from_str l.
Proof.
  destruct l as [|t a b]; [done|]. simpl.
  by rewrite andb_comm, sorted_pair_comm.
Qed.

Lemma process_ext (s : state) (l l' : line) :
  edge_from_str l = edge_from_str l' → process s l = process s l'.
Proof. intros H. unfold process. by rewrite H. Qed.

Lemma main_ext (fuel : nat) (input input' : list line) :
  Forall2 (λ l l', edge_from_str l = edge_from_str l') input input' →
  main fuel input = main fuel input'.
Proof.
  intros H. unfold main.
  assert (match bootstrap fuel input, bootstrap fuel input' with
          | Some (Ok (s, rest)), Some (Ok (s', rest')) =>
              s = s' ∧
              Forall2 (λ l l', edge_from_str l = edge_from_str l') rest rest'
          | Some (Raise x), Some (Raise x') => x = x'
          | None, None => True
          | _, _ => False
          end) as Hb.
  { revert input input' H. induction fuel as [|fuel IH]; intros input input' H.
    - done.
    - destruct H as [|l l' input input' Hl H]; simpl.
      + apply IH. constructor.
      + rewrite <-Hl. destruct (edge_from_str l) as [[[e T]|]|x]; [done| |done].
        by apply IH. }
  destruct (bootstrap fuel input) as [[[s rest]|x]|],
    (bootstrap fuel input') as [[[s' rest']|x']|]; try done; [|by subst].
  destruct Hb as [<- Hrest]. generalize [med_degree_str s]. clear H.
  revert s. induction Hrest as [|l l' rest rest' Hl Hrest IH]; intros s out.
  - done.
  - simpl. rewrite (process_ext s l l' Hl).
    destruct (process s l') as [[s1 w]|e]; [apply IH|done].
Qed.

(** Exchanging target and actor on any of the lines changes neither the
    final state, nor the exception, nor the lines written. *)
Theorem direction_irrelevant (fuel : nat) (input input' : list line) :
  Forall2 (λ l l', l' = l ∨ l' = swap_ends l) input input' →
  main fuel input' = main fuel input.
Proof.
  intros H. symmetry. apply main_ext.
  eapply Forall2_impl; [exact H|].
  intros l l' [->| ->]; [done|]. by rewrite edge_from_str_swap.
Qed.

Lemma direction_irrelevant_witness :
  Forall2 (λ l l', l' = l ∨ l' = swap_ends l)
    [txn 0 0 "A" "B"; txn 0 5 "B" "C"]
    [txn 0 0 "B" "A"; txn 0 5 "B" "C"] ∧
  main 1 [txn 0 0 "B" "A"; txn 0 5 "B" "C"]
  = main 1 [txn 0 0 "A" "B"; txn 0 5 "B" "C"].
Proof.
  assert (Forall2 (λ l l', l' = l ∨ l' = swap_ends l)
            [txn 0 0 "A" "B"; txn 0 5 "B" "C"]
            [txn 0 0 "B" "A"; txn 0 5 "B" "C"]) as H.
  { constructor; [by right|]. constructor; [by left|]. constructor. }
  split; [exact H|]. exact (direction_irrelevant 1 _ _ H).
Defined.

(** ** Lines without an event *)

Lemma bootstrap_more_fuel (fuel : nat) : ∀ (input : list line) r,
  bootstrap fuel input = Some r → bootstrap (S fuel) input = Some r.
Proof.
  induction fuel as [|fuel IH]; intros input r H; [done|].
  destruct input as [|l input].
  - by rewrite bootstrap_None in H by constructor.
  - simpl in H. change (bootstrap (S (S fuel)) (l :: input))
      with (match edge_from_str l with
            | Raise x => Some (Raise x)
            | Ok (Some (e, T)) => Some (Ok (first_state e T, input))
            | Ok None => bootstrap (S fuel) input
            end).
    destruct (edge_from_str l) as [[[e T]|]|x]; [done| |done]. by apply IH.
Qed.

Lemma bootstrap_filter (fuel : nat) :
  ∀ (input : list line) (r : result (state * list line)),
  bootstrap fuel input = Some r →
  bootstrap fuel (filter (λ l, edge_from_str l ≠ Ok None) input)
  = Some (match r with
          | Ok (s, rest) =>
              Ok (s, filter (λ l, edge_from_str l ≠ Ok None) rest)
          | Raise x => Raise x
          end).
Proof.
  induction fuel as [|fuel IH]; intros input r H; [done|].
  destruct input as [|l input].
  - by rewrite bootstrap_None in H by constructor.
  - simpl in H. destruct (edge_from_str l) as [[[e T]|]|x] eqn:Hl.
    + injection H as <-. rewrite filter_cons, decide_True by (by rewrite Hl).
      simpl. by rewrite Hl.
    + rewrite filter_cons, decide_False by (rewrite Hl; by intros ?).
      by apply bootstrap_more_fuel, IH.
    + injection H as <-. rewrite filter_cons, decide_True by (by rewrite Hl).
      simpl. by rewrite Hl.
Qed.

Lemma run_filter (rest : list line) : ∀ (s : state) (out : list string),
  run s out (filter (λ l, edge_from_str l ≠ Ok None) rest) = run s out rest.
Proof.
  induction rest as [|l rest IH]; intros s out; [done|].
  rewrite filter_cons. case_decide as Hl.
  - simpl. destruct (process s l) as [[s' w]|e]; [apply IH|done].
  - simpl. rewrite (process_eventless _ _ Hl).
    rewrite app_nil_r. apply IH.
Qed.

(** Once the first loop has come to its end, the lines on which
    [edge_from_str] finds nothing can be taken out of the input without any
    change to the final state, the exception or the lines written. *)
Theorem eventless_lines_removable (fuel : nat) (input : list line) :
  is_Some (bootstrap fuel input) →
  main fuel (filter (λ l, edge_from_str l ≠ Ok None) input) = main fuel input.
Proof.
  intros [[[s rest]|x] Hb]; unfold main;
    rewrite (bootstrap_filter _ _ _ Hb), Hb; [apply run_filter|done].
Qed.

Lemma eventless_lines_removable_witness :
  is_Some (bootstrap 2 [Unmatched; txn 0 0 "A" "B"; txn 0 1 "" "C";
                        txn 0 2 "B" "C"]) ∧
  filter (λ l, edge_from_str l ≠ Ok None)
    [Unmatched; txn 0 0 "A" "B"; txn 0 1 "" "C"; txn 0 2 "B" "C"]
  = [txn 0 0 "A" "B"; txn 0 2 "B" "C"] ∧
  main 2 (filter (λ l, edge_from_str l ≠ Ok None)
            [Unmatched; txn 0 0 "A" "B"; txn 0 1 "" "C"; txn 0 2 "B" "C"])
  = main 2 [Unmatched; txn 0 0 "A" "B"; txn 0 1 "" "C"; txn 0 2 "B" "C"].
Proof.
  assert (is_Some (bootstrap 2 [Unmatched; txn 0 0 "A" "B"; txn 0 1 "" "C";
                                txn 0 2 "B" "C"])) as H
    by (vm_compute; eauto).
  split; [exact H|]. split; [vm_compute; reflexivity|].
  exact (eventless_lines_removable 2 _ H).
Defined.

(** ** A change of the origin of time *)

Lemma evict_edges_shift (d end_time : Z) (E : gmap edge Z) :
  evict_edges (end_time + d) ((λ t, t + d) <$> E) = evict_edges end_time E.
Proof.
  unfold evict_edges. rewrite map_to_list_fmap.
  induction (map_to_list E) as [|[k t] L IH]; [done|].
  rewrite fmap_cons, !filter_cons.
  destruct (decide ((prod_map id (λ t, t + d) (k, t)).2 ≤ end_time + d))
    as [H1|H1], (decide ((k, t).2 ≤ end_time)) as [H2|H2];
    simpl in H1, H2; try lia.
  - rewrite !fmap_cons. f_equal. exact IH.
  - exact IH.
Qed.

Lemma evict_shift (d : Z) (l : list edge) :
  ∀ (E : gmap edge Z) (N : gmap string Z),
    evict l ((λ t, t + d) <$> E) N
    = match evict l E N with
      | Ok (E', N') => Ok ((λ t, t + d) <$> E', N')
      | Raise e => Raise e
      end.
Proof.
  induction l as [|e l IH]; intros E N; simpl; [done|].
  rewrite lookup_fmap. destruct (E !! e) as [t|]; simpl; [|done].
  destruct (drop e.1 N) as [N1|]; simpl; [|done].
  destruct (drop e.2 N1) as [N2|]; simpl; [|done].
  by rewrite <-fmap_delete, IH.
Qed.

Lemma add_edge_shift (d : Z) (e : edge) (t : Z) (E : gmap edge Z)
    (N : gmap string Z) :
  add_edge e (t + d) ((λ t, t + d) <$> E) N
  = ((λ t, t + d) <$> (add_edge e t E N).1, (add_edge e t E N).2).
Proof.
  unfold add_edge. rewrite lookup_fmap.
  destruct (E !! e); simpl; by rewrite fmap_insert.
Qed.

Lemma update_shift (d : Z) (s : state) (e : edge) (T : Z) :
  time_window ≤ T → time_window ≤ T + d →
  update (shift_state d s) e (T + d)
  = match update s e T with
    | Ok (s', w) => Ok (shift_state d s', w)
    | Raise x => Raise x
    end.
Proof.
  intros HT HTd. unfold update. simpl.
  replace (T + d - (latest_time s + d)) with (T - latest_time s) by lia.
  destruct (0 <=? T - latest_time s).
  - rewrite add_edge_shift. simpl.
    destruct (0 <? T - latest_time s).
    + rewrite !sweep_late by done.
      replace (T + d - time_window) with (T - time_window + d) by lia.
      rewrite evict_edges_shift, evict_shift.
      destruct (evict _ _ _) as [[E' N']|]; simpl; [|done].
      destruct (median (nodes_values N')); done.
    + simpl. destruct (median (nodes_values _)); done.
  - destruct (- 60 <? T - latest_time s); [|done].
    rewrite lookup_fmap. destruct (edges s !! e) as [t|]; simpl.
    + unfold shift_state. simpl. f_equal. f_equal. f_equal.
      destruct (Z.ltb_spec (t + d) (T + d)), (Z.ltb_spec t T); try lia; [|done].
      by rewrite fmap_insert.
    + destruct (median (nodes_values _)); [|done]. simpl.
      unfold shift_state. simpl. by rewrite fmap_insert.
Qed.

Lemma process_shift (d : Z) (s : state) (l l' : line) :
  shifted d l l' →
  process (shift_state d s) l'
  = match process s l with
    | Ok (s', w) => Ok (shift_state d s', w)
    | Raise x => Raise x
    end.
Proof.
  intros [Hl' Hlate]. unfold process. rewrite Hl'.
  destruct (edge_from_str l) as [[[e T]|]|x]; simpl; [|done|done].
  destruct (Hlate e T eq_refl). by apply update_shift.
Qed.

Lemma bootstrap_shift (d : Z) (fuel : nat) : ∀ input input' : list line,
  Forall2 (shifted d) input input' →
  match bootstrap fuel input, bootstrap fuel input' with
  | Some (Ok (s, rest)), Some (Ok (s', rest')) =>
      s' = shift_state d s ∧ Forall2 (shifted d) rest rest'
  | Some (Raise x), Some (Raise x') => x = x'
  | None, None => True
  | _, _ => False
  end.
Proof.
  induction fuel as [|fuel IH]; intros input input' H; [done|].
  destruct H as [|l l' input input' [Hl' _] H]; simpl.
  - apply IH. constructor.
  - rewrite Hl'.
    destruct (edge_from_str l) as [[[e T]|]|x]; simpl; [|by apply IH|done].
    split; [|done]. unfold shift_state, first_state. simpl.
    by rewrite map_fmap_singleton.
Qed.

Lemma run_shift (d : Z) (rest rest' : list line) :
  Forall2 (shifted d) rest rest' →
  ∀ (s : state) (out : list string),
    run (shift_state d s) out rest' = shift_outcome d (run s out rest).
Proof.
  induction 1 as [|l l' rest rest' Hl Hrest IH]; intros s out; simpl; [done|].
  rewrite (process_shift d s l l' Hl).
  destruct (process s l) as [[s' w]|e]; simpl; [apply IH|done].
Qed.

(** Moving every time of the input by the same number of seconds, no time
    being in the first 60 seconds of the year 1 before or after, moves the
    times of the final state by as much and changes nothing else: the same
    lines are written and the same exception, if any, is raised. *)
Theorem time_shift (d : Z) (fuel : nat) (input input' : list line) :
  Forall2 (shifted d) input input' →
  main fuel input' = shift_outcome d (main fuel input) ∧
  written (main fuel input') = written (main fuel input).
Proof.
  intros Hsh.
  assert (main fuel input' = shift_outcome d (main fuel input)) as H.
  { unfold main. pose proof (bootstrap_shift d fuel _ _ Hsh) as Hb.
    destruct (bootstrap fuel input) as [[[s rest]|x]|],
      (bootstrap fuel input') as [[[s' rest']|x']|]; try done; [|by subst].
    destruct Hb as [-> Hrest]. simpl. by apply run_shift. }
  split; [done|]. rewrite H. by destruct (main fuel input).
Qed.

(** An hour later: the line of 15:01:10 evicts the edge of 15:00:00 as the
    line of 16:01:10 evicts the edge of 16:00:00. *)
Lemma time_shift_witness :
  Forall2 (shifted 3600)
    [txn 0 0 "A" "B"; Matched None "C" "D"; txn 0 30 "B" "C";
     txn 1 10 "C" "D"]
    [Matched (Some (Fields 2016 7 6 16 0 0)) "A" "B";
     Matched (Some (Fields 2016 13 6 16 0 0)) "C" "D";
     Matched (Some (Fields 2016 7 6 16 0 30)) "B" "C";
     Matched (Some (Fields 2016 7 6 16 1 10)) "C" "D"] ∧
  main 1 [Matched (Some (Fields 2016 7 6 16 0 0)) "A" "B";
          Matched (Some (Fields 2016 13 6 16 0 0)) "C" "D";
          Matched (Some (Fields 2016 7 6 16 0 30)) "B" "C";
          Matched (Some (Fields 2016 7 6 16 1 10)) "C" "D"]
  = shift_outcome 3600
      (main 1 [txn 0 0 "A" "B"; Matched None "C" "D"; txn 0 30 "B" "C";
               txn 1 10 "C" "D"]) ∧
  written (main 1 [Matched (Some (Fields 2016 7 6 16 0 0)) "A" "B";
                   Matched (Some (Fields 2016 13 6 16 0 0)) "C" "D";
                   Matched (Some (Fields 2016 7 6 16 0 30)) "B" "C";
                   Matched (Some (Fields 2016 7 6 16 1 10)) "C" "D"])
  = written (main 1 [txn 0 0 "A" "B"; Matched None "C" "D";
                     txn 0 30 "B" "C"; txn 1 10 "C" "D"]).
Proof.
  assert (∀ l l' r,
            edge_from_str l = r → edge_from_str l' = shift_extract 3600 r →
            match r with
            | Ok (Some (_, t)) => (60 <=? t) && (60 <=? t + 3600) = true
            | _ => True
            end → shifted 3600 l l') as Hone.
  { intros l l' r <- Hl' Hr. split; [done|].
    intros e t Ht. rewrite Ht in Hr. unfold time_window. lia. }
  assert (Forall2 (shifted 3600)
            [txn 0 0 "A" "B"; Matched None "C" "D"; txn 0 30 "B" "C";
             txn 1 10 "C" "D"]
            [Matched (Some (Fields 2016 7 6 16 0 0)) "A" "B";
             Matched (Some (Fields 2016 13 6 16 0 0)) "C" "D";
             Matched (Some (Fields 2016 7 6 16 0 30)) "B" "C";
             Matched (Some (Fields 2016 7 6 16 1 10)) "C" "D"]) as H.
  { repeat (constructor;
              [eapply Hone;
                 [vm_compute; reflexivity|vm_compute; reflexivity|
                  vm_compute; done]|]).
    constructor. }
  split; [exact H|]. exact (time_shift 3600 1 _ _ H).
Defined.

(** ** The order of the eviction *)

Lemma drop_Raise (x : string) (N : gmap string Z) (e : exn) :
  drop x N = Raise e → e = KeyError.
Proof.
  unfold drop. destruct (N !! x) as [d|]; [|by intros [= <-]].
  by destruct (d =? 1).
Qed.

Lemma drop_lookup_ne (x y : string) (N N' : gmap string Z) :
  x ≠ y → drop x N = Ok N' → N' !! y = N !! y.
Proof.
  intros Hne. unfold drop. destruct (N !! x) as [d|]; [|done].
  destruct (d =? 1); intros [= <-].
  - by rewrite lookup_delete_ne.
  - by rewrite lookup_insert_ne.
Qed.

Lemma drop_comm (x y : string) (N : gmap string Z) :
  (N1 ← drop x N; drop y N1) = (N1 ← drop y N; drop x N1).
Proof.
  destruct (decide (x = y)) as [->|Hne]; [done|].
  destruct (drop x N) as [Nx|ex] eqn:Hx, (drop y N) as [Ny|ey] eqn:Hy; simpl.
  - pose proof (drop_lookup_ne _ _ _ _ Hne Hx) as Hxy.
    pose proof (drop_lookup_ne _ _ _ _ (not_eq_sym Hne) Hy) as Hyx.
    unfold drop in *. rewrite Hxy, Hyx.
    destruct (N !! x) as [dx|]; [|done]. destruct (N !! y) as [dy|]; [|done].
    destruct (dx =? 1), (dy =? 1);
      injection Hx as <-; injection Hy as <-; f_equal.
    + apply delete_delete.
    + by rewrite delete_insert_ne.
    + by rewrite delete_insert_ne.
    + by apply insert_insert_ne.
  - unfold drop in *. rewrite (drop_lookup_ne _ _ _ _ Hne Hx).
    by destruct (N !! y) as [dy|]; [destruct (dy =? 1)|].
  - unfold drop in *. rewrite (drop_lookup_ne _ _ _ _ (not_eq_sym Hne) Hy).
    by destruct (N !! x) as [dx|]; [destruct (dx =? 1)|].
  - by rewrite (drop_Raise _ _ _ Hx), (drop_Raise _ _ _ Hy).
Qed.

Lemma drops_app (l1 l2 : list string) : ∀ N : gmap string Z,
  drops (l1 ++ l2) N = (N1 ← drops l1 N; drops l2 N1).
Proof.
  induction l1 as [|x l1 IH]; intros N; simpl; [done|].
  destruct (drop x N) as [N1|]; simpl; [apply IH|done].
Qed.

Lemma drops_two (x y : string) (l : list string) (N : gmap string Z) :
  drops (x :: y :: l) N = (N1 ← drop x N; drop y N1) ≫= drops l.
Proof. simpl. by destruct (drop x N). Qed.

Lemma drops_Permutation (l1 l2 : list string) :
  l1 ≡ₚ l2 → ∀ N : gmap string Z, drops l1 N = drops l2 N.
Proof.
  induction 1 as [|x l1 l2 _ IH|x y l|l1 l2 l3 _ IH1 _ IH2]; intros N.
  - done.
  - simpl. destruct (drop x N) as [N1|]; simpl; [apply IH|done].
  - rewrite !drops_two. by rewrite drop_comm.
  - by rewrite IH1.
Qed.

Lemma drops_Raise (l : list string) : ∀ (N : gmap string Z) (e : exn),
  drops l N = Raise e → e = KeyError.
Proof.
  induction l as [|x l IH]; intros N e; simpl; [done|].
  destruct (drop x N) as [N1|e1] eqn:Hx; simpl; [apply IH|].
  intros [= <-]. by eapply drop_Raise.
Qed.

(** The eviction loop as a whole: the edges must be different and in the
    table, the nodes are dropped end by end, the edges deleted. *)
Lemma evict_drops (l : list edge) : ∀ (E : gmap edge Z) (N : gmap string Z),
  evict l E N
  = if decide (NoDup l ∧ Forall (λ e, is_Some (E !! e)) l)
    then match drops (l ≫= λ e, [e.1; e.2]) N with
         | Ok N' => Ok (foldr delete E l, N')
         | Raise _ => Raise KeyError
         end
    else Raise KeyError.
Proof.
  induction l as [|e l IH]; intros E N.
  - cbn [evict]. case_decide as H; [done|]. destruct H. split; constructor.
  - simpl evict. destruct (E !! e) as [t|] eqn:He.
    + change ((e :: l) ≫= λ e, [e.1; e.2])
        with ([e.1; e.2] ++ (l ≫= λ e, [e.1; e.2])).
      rewrite drops_app. simpl.
      destruct (drop e.1 N) as [N1|e1] eqn:H1; simpl.
      2:{ rewrite (drop_Raise _ _ _ H1). by destruct (decide _). }
      destruct (drop e.2 N1) as [N2|e2] eqn:H2; simpl.
      2:{ rewrite (drop_Raise _ _ _ H2). by destruct (decide _). }
      rewrite IH.
      destruct (decide (NoDup l ∧ Forall (λ e', is_Some (delete e E !! e')) l))
        as [[Hnd Hin]|Hno].
      * rewrite Forall_forall in Hin. rewrite decide_True.
        { destruct (drops _ N2); [|done]. f_equal. f_equal.
          clear -Hin. induction l as [|e' l IH]; [done|]. simpl.
          rewrite delete_delete. f_equal. apply IH.
          intros e'' He''. apply Hin. by right. }
        split.
        -- constructor; [|done]. intros Hel. apply Hin in Hel as [u Hu].
           by rewrite lookup_delete_eq in Hu.
        -- constructor; [eauto|]. apply Forall_forall. intros e' Hel.
           apply Hin in Hel as [u Hu].
           apply lookup_delete_Some in Hu as [_ Hu]. eauto.
      * rewrite decide_False; [done|]. intros [Hnd Hin]. apply Hno.
        apply NoDup_cons in Hnd as [Hne Hnd]. split; [done|].
        apply Forall_cons in Hin as [_ Hin]. rewrite Forall_forall in Hin.
        apply Forall_forall. intros e' Hel.
        rewrite lookup_delete_ne by (intros <-; done). by apply Hin.
    + rewrite decide_False; [done|]. intros [_ Hin].
      apply Forall_cons in Hin as [[u Hu] _]. congruence.
Qed.

Lemma foldr_delete_lookup (l : list edge) (E : gmap edge Z) (k : edge) :
  foldr delete E l !! k = if decide (k ∈ l) then None else E !! k.
Proof.
  induction l as [|e l IH]; cbn [foldr].
  - rewrite decide_False; [done|apply not_elem_of_nil].
  - destruct (decide (k = e)) as [->|Hne].
    + rewrite lookup_delete_eq, decide_True; [done|left].
    + rewrite lookup_delete_ne, IH by done.
      destruct (decide (k ∈ l)) as [Hl|Hl].
      * rewrite decide_True; [done|by right].
      * rewrite decide_False; [done|]. by intros [?|?]%elem_of_cons.
Qed.

(** The eviction loop gives the same tables, or the same exception, in
    whatever order the edges to evict are taken. *)
Theorem evict_order_free (l1 l2 : list edge) (E : gmap edge Z)
    (N : gmap string Z) :
  l1 ≡ₚ l2 → evict l1 E N = evict l2 E N.
Proof.
  intros Hp. rewrite !evict_drops.
  assert ((NoDup l1 ∧ Forall (λ e, is_Some (E !! e)) l1)
          ↔ (NoDup l2 ∧ Forall (λ e, is_Some (E !! e)) l2)) as Hiff
    by (by rewrite Hp).
  destruct (decide (NoDup l1 ∧ _)) as [H1|H1].
  - rewrite decide_True by (by apply Hiff).
    rewrite (drops_Permutation _ (l2 ≫= λ e, [e.1; e.2])) by (by rewrite Hp).
    destruct (drops _ N); [|done]. f_equal. f_equal.
    apply map_eq. intros k. rewrite !foldr_delete_lookup.
    destruct (decide (k ∈ l1)) as [Hk|Hk].
    + rewrite decide_True; [done|by rewrite <-Hp].
    + rewrite decide_False; [done|by rewrite <-Hp].
  - rewrite decide_False; [done|]. by rewrite <-Hiff.
Qed.

Lemma evict_order_free_witness :
  [("A", "B"); ("B", "C")] ≡ₚ [("B", "C"); ("A", "B")] ∧
  evict [("A", "B"); ("B", "C")]
        (<[("B", "C") := 1]> {[("A", "B") := 0]})
        (<["C" := 1]> (<["B" := 2]> {["A" := 1]}))
  = evict [("B", "C"); ("A", "B")]
          (<[("B", "C") := 1]> {[("A", "B") := 0]})
          (<["C" := 1]> (<["B" := 2]> {["A" := 1]})).
Proof.
  assert ([("A", "B"); ("B", "C")] ≡ₚ [("B", "C"); ("A", "B")]) as H
    by apply Permutation_swap.
  split; [exact H|]. exact (evict_order_free _ _ _ _ H).
Defined.

(** ** The median of any data *)

Lemma median_between (data : list Z) (m : Q) :
  median data = Ok m →
  ∃ a b, a ∈ data ∧ b ∈ data ∧ (inject_Z a <= m)%Q ∧ (m <= inject_Z b)%Q.
Proof.
  intros H. pose proof (median_Ok_inv _ _ H) as Hlen. unfold median in H.
  set (d := merge_sort Z.le data) in *.
  assert (length d = length data) as Hd
    by (subst d; by rewrite merge_sort_Permutation).
  assert (∀ i, (i < length d)%nat → nth i d 0 ∈ data) as Hin.
  { intros i Hi. rewrite <-(merge_sort_Permutation Z.le data).
    by apply nth_elem_of. }
  destruct (length d =? 0)%nat; [done|].
  assert (length d / 2 < length d)%nat as Hhi
    by (apply Nat.Div0.div_lt_upper_bound; lia).
  destruct (length d mod 2 =? 1)%nat; injection H as <-.
  - exists (nth (length d / 2) d 0), (nth (length d / 2) d 0).
    split; [by apply Hin|]. split; [by apply Hin|].
    split; apply Qle_refl.
  - set (x := nth (length d / 2 - 1) d 0). set (y := nth (length d / 2) d 0).
    assert (x ∈ data) as Hx by (apply Hin; lia).
    assert (y ∈ data) as Hy by (by apply Hin).
    exists (Z.min x y), (Z.max x y).
    split; [by destruct (Z.min_spec x y) as [[_ ->]|[_ ->]]|].
    split; [by destruct (Z.max_spec x y) as [[_ ->]|[_ ->]]|].
    change ((inject_Z (Z.min x y) <= Qred ((x + y) # 2))%Q
            ∧ (Qred ((x + y) # 2) <= inject_Z (Z.max x y))%Q).
    clearbody x y. rewrite Qred_correct. unfold Qle. simpl. lia.
Qed.

(** [median] raises [StatisticsError] on empty data and on no other; on
    other data it returns a value that lies between two of the items, so
    between any bounds that hold for all of them. *)
Theorem median_range (data : list Z) :
  (data = [] → median data = Raise StatisticsError) ∧
  (data ≠ [] →
   ∃ m, median data = Ok m ∧
        ∀ lo hi, Forall (λ x, lo ≤ x ≤ hi) data →
                 (inject_Z lo <= m)%Q ∧ (m <= inject_Z hi)%Q).
Proof.
  split; [by intros ->|]. intros Hne.
  destruct (median_is_Ok data Hne) as [m Hm]. exists m. split; [done|].
  intros lo hi Hall. rewrite Forall_forall in Hall.
  destruct (median_between _ _ Hm) as (a & b & Ha & Hb & Hlo & Hhi).
  apply Hall in Ha, Hb. split.
  - eapply Qle_trans; [|exact Hlo]. rewrite <-Zle_Qle. lia.
  - eapply Qle_trans; [exact Hhi|]. rewrite <-Zle_Qle. lia.
Qed.

Lemma median_range_witness :
  ([3; 1; 2; 2] : list Z) ≠ [] ∧
  ∃ m, median [3; 1; 2; 2] = Ok m ∧
       ∀ lo hi, Forall (λ x, lo ≤ x ≤ hi) [3; 1; 2; 2] →
                (inject_Z lo <= m)%Q ∧ (m <= inject_Z hi)%Q.
Proof.
  assert (([3; 1; 2; 2] : list Z) ≠ []) as H by discriminate.
  split; [exact H|]. exact (proj2 (median_range [3; 1; 2; 2]) H).
Defined.

(** The median does not depend on the order of the data: the order in which
    the node dictionary gives its values is of no account. *)
Theorem median_order_free (l1 l2 : list Z) : l1 ≡ₚ l2 → median l1 = median l2.
Proof. apply median_Permutation. Qed.

Lemma median_order_free_witness :
  ([1; 3; 2; 2] : list Z) ≡ₚ [2; 1; 2; 3] ∧
  median [1; 3; 2; 2] = median [2; 1; 2; 3].
Proof.
  assert (([1; 3; 2; 2] : list Z) ≡ₚ [2; 1; 2; 3]) as H.
  { apply (Permutation_trans (l' := [1; 2; 3; 2])).
    - do 1 constructor. apply Permutation_swap.
    - apply (Permutation_trans (l' := [1; 2; 2; 3])).
      + do 2 constructor. apply Permutation_swap.
      + apply Permutation_swap. }
  split; [exact H|]. exact (median_order_free _ _ H).
Defined.

(** ** What every table holds *)

Lemma main_state_invariant (I : state → Prop) :
  (∀ l e T, edge_from_str l = Ok (Some (e, T)) → I (first_state e T)) →
  (∀ s l s' w, I s → process s l = Ok (s', w) → I s') →
  ∀ fuel input s out, main fuel input = Finished s out → I s.
Proof.
  intros Hbase Hstep.
  apply (main_invariant (λ _ _ s, I s)); [|by eauto].
  intros pre l e T _ Hl. by eapply Hbase.
Qed.

Lemma main_proper_invariant (I : state → Prop) :
  (∀ e T, e.1 ≠ e.2 → I (first_state e T)) →
  (∀ s l s' w, I s → process s l = Ok (s', w) → I s') →
  ∀ fuel input s out,
    proper_start input → main fuel input = Finished s out → I s.
Proof.
  intros Hbase Hstep fuel input s out Hstart Hmain.
  cut (events input ≠ [] ∧ (proper_start input → I s)).
  { intros [_ H]. by apply H. }
  revert Hmain. clear Hstart.
  apply (main_invariant (λ h _ s, events h ≠ [] ∧ (proper_start h → I s))).
  - intros pre l e T Hpre Hl. rewrite (events_first _ _ _ Hpre Hl).
    split; [done|]. unfold proper_start.
    rewrite (events_first _ _ _ Hpre Hl). simpl. apply Hbase.
  - intros h o s0 l s' w [Hne HI] Hp. split.
    + rewrite events_app. by destruct (events h).
    + intros Hstart%proper_start_prefix; [|done]. eauto.
Qed.

Lemma sorted_pair_ordered (a b : string) :
  truthy a = true → truthy b = true → ordered_edge (sorted_pair a b).
Proof.
  intros Ha Hb. unfold sorted_pair, ordered_edge.
  destruct (String.ltb b a) eqn:Hlt; simpl; [|done].
  split; [done|]. split; [done|].
  unfold String.ltb in *. rewrite String.compare_antisym.
  by destruct (String.compare b a).
Qed.

Lemma edge_from_str_ordered (l : line) (e : edge) (T : Z) :
  edge_from_str l = Ok (Some (e, T)) → ordered_edge e.
Proof.
  destruct l as [|f a b]; [done|]. simpl.
  destruct (truthy a) eqn:Ha, (truthy b) eqn:Hb; try done. simpl.
  destruct f as [f|]; [|done]. destruct (datetime f); [|done].
  intros [= <- <-]. by apply sorted_pair_ordered.
Qed.

Lemma update_edges_from (s s' : state) (e0 : edge) (T : Z) (w : list string)
    (e : edge) (t : Z) :
  update s e0 T = Ok (s', w) → edges s' !! e = Some t →
  e0 = e ∨ is_Some (edges s !! e).
Proof.
  assert (∀ T, <[e0:=T]> (edges s) !! e = Some t →
               e0 = e ∨ is_Some (edges s !! e)) as Hins.
  { intros T'. rewrite lookup_insert. case_decide; eauto. }
  update_cases s T; intros H He.
  - apply bind_Ok in H as ([latest g] & Hsw & H).
    apply bind_Ok in Hsw as ([E' N'] & Hsw & [= <- <-]).
    apply bind_Ok in H as (m & _ & [= <- <-]). simpl in He.
    apply (sweep_lookup _ _ _ _ _ Hsw) in He as [He _].
    rewrite add_edge_table in He. by apply Hins in He.
  - apply bind_Ok in H as ([latest g] & [= <- <-] & H).
    apply bind_Ok in H as (m & _ & [= <- <-]). simpl in He.
    rewrite add_edge_table in He. by apply Hins in He.
  - destruct (edges s !! e0) as [t0|] eqn:He0.
    + injection H as <- <-. simpl in He.
      destruct (t0 <? T); [|eauto]. by apply Hins in He.
    + apply bind_Ok in H as (m & _ & [= <- <-]). simpl in He.
      by apply Hins in He.
  - injection H as <- <-. eauto.
Qed.

Lemma process_edges_from (s s' : state) (l : line) (w : list string)
    (e : edge) (t : Z) :
  process s l = Ok (s', w) → edges s' !! e = Some t →
  (∃ T, edge_from_str l = Ok (Some (e, T))) ∨ is_Some (edges s !! e).
Proof.
  intros [(_ & -> & _)|(e0 & T & Hl & Hu)]%process_Ok He; [eauto|].
  destruct (update_edges_from _ _ _ _ _ _ _ Hu He) as [<-|?]; eauto.
Qed.

Lemma bump_sound (x : string) (N : gmap string Z) :
  truthy x = true → sound_nodes N → sound_nodes (bump x N).
Proof.
  intros Hx HN n d. unfold bump.
  destruct (N !! x) as [dx|] eqn:Hdx; rewrite lookup_insert;
    case_decide as Hn; try (by apply HN).
  - subst n. intros [= <-]. split; [done|]. apply HN in Hdx. lia.
  - subst n. by intros [= <-].
Qed.

Lemma drop_sound (x : string) (N N' : gmap string Z) :
  drop x N = Ok N' → sound_nodes N → sound_nodes N'.
Proof.
  unfold drop. destruct (N !! x) as [dx|] eqn:Hdx; [|done].
  destruct (Z.eqb_spec dx 1) as [->|Hne]; intros [= <-] HN n d.
  - intros [_ H]%lookup_delete_Some. by apply HN.
  - rewrite lookup_insert. case_decide as Hn; [|by apply HN].
    subst n. intros [= <-]. apply HN in Hdx. split; [apply Hdx|lia].
Qed.

Lemma evict_sound (l : list edge) :
  ∀ (E E' : gmap edge Z) (N N' : gmap string Z),
    evict l E N = Ok (E', N') → sound_nodes N → sound_nodes N'.
Proof.
  induction l as [|e l IH]; intros E E' N N' H HN; simpl in H.
  - by injection H as <- <-.
  - destruct (E !! e); [|done].
    apply bind_Ok in H as (N1 & H1 & H). apply bind_Ok in H as (N2 & H2 & H).
    eapply IH; [exact H|]. eauto using drop_sound.
Qed.

Lemma add_edge_sound (e : edge) (T : Z) (E : gmap edge Z) (N : gmap string Z) :
  ordered_edge e → sound_nodes N → sound_nodes (add_edge e T E N).2.
Proof.
  intros (H1 & H2 & _) HN. unfold add_edge.
  destruct (E !! e); simpl; [done|].
  unfold bump_ends. eauto using bump_sound.
Qed.

Lemma update_sound (s s' : state) (e : edge) (T : Z) (w : list string) :
  ordered_edge e → update s e T = Ok (s', w) →
  sound_nodes (nodes s) → sound_nodes (nodes s').
Proof.
  intros Hord H HN. revert H. update_cases s T; intros H.
  - apply bind_Ok in H as ([latest g] & Hsw & H).
    apply bind_Ok in Hsw as ([E' N'] & Hsw & [= <- <-]).
    apply bind_Ok in H as (m & _ & [= <- <-]). simpl.
    apply sweep_Ok in Hsw as [_ Hsw].
    eapply evict_sound; [exact Hsw|]. by apply add_edge_sound.
  - apply bind_Ok in H as ([latest g] & [= <- <-] & H).
    apply bind_Ok in H as (m & _ & [= <- <-]). simpl.
    by apply add_edge_sound.
  - destruct (edges s !! e) as [t0|] eqn:He0.
    + by injection H as <- <-.
    + apply bind_Ok in H as (m & _ & [= <- <-]). simpl.
      destruct Hord as (H1 & H2 & _). unfold bump_ends.
      eauto using bump_sound.
  - by injection H as <- <-.
Qed.

Lemma process_sound (s s' : state) (l : line) (w : list string) :
  process s l = Ok (s', w) → sound_nodes (nodes s) → sound_nodes (nodes s').
Proof.
  intros [(_ & -> & _)|(e & T & Hl & Hu)]%process_Ok HN; [done|].
  eapply update_sound; [|exact Hu|exact HN]. by eapply edge_from_str_ordered.
Qed.

(** After every line, whatever the input: the pairs of the edge table are
    made of two names, neither empty, the second not before the first; the
    names of the node table are not empty and their degrees are at least 1;
    and the median is at least 1. *)
Theorem tables_sound (fuel : nat) (input : list line) (s : state)
    (out : list string) :
  main fuel input = Finished s out →
  (∀ e t, edges s !! e = Some t → ordered_edge e) ∧
  (∀ n d, nodes s !! n = Some d → truthy n = true ∧ 1 ≤ d) ∧
  (1 <= median_degree s)%Q.
Proof.
  intros Hmain.
  assert ((∀ e t, edges s !! e = Some t → ordered_edge e) ∧
          sound_nodes (nodes s)) as [HE HN].
  { revert fuel input s out Hmain. apply main_state_invariant.
    - intros l e T Hl. apply edge_from_str_ordered in Hl as Hord. split.
      + intros e' t. simpl. by intros [<- _]%lookup_singleton_Some.
      + destruct Hord as (H1 & H2 & _). intros n d. simpl.
        rewrite lookup_insert. case_decide as Hn; [by intros [= <-]; subst|].
        by intros [<- <-]%lookup_singleton_Some.
    - intros s0 l s' w [HE HN] Hp. split; [|by eapply process_sound].
      intros e t He.
      destruct (process_edges_from _ _ _ _ _ _ Hp He) as [[T Hl]|[u Hu]].
      + by eapply edge_from_str_ordered.
      + by eapply HE. }
  split; [done|]. split; [done|].
  destruct (main_reported _ _ _ _ Hmain) as ([Hm _] & _).
  destruct (median_between _ _ Hm) as (a & b & Ha & _ & Hlo & _).
  eapply Qle_trans; [|exact Hlo].
  apply list_elem_of_fmap in Ha as ([n d] & -> & Hnd).
  apply elem_of_map_to_list in Hnd. apply HN in Hnd as [_ Hd].
  change 1%Q with (inject_Z 1). by rewrite <-Zle_Qle.
Qed.

Lemma tables_sound_witness :
  ∃ s out,
    main 1 [txn 0 0 "B" "A"; txn 0 5 "X" "X"] = Finished s out ∧
    (∀ e t, edges s !! e = Some t → ordered_edge e) ∧
    (∀ n d, nodes s !! n = Some d → truthy n = true ∧ 1 ≤ d) ∧
    (1 <= median_degree s)%Q.
Proof.
  eexists _, _.
  refine ((λ H, conj H (tables_sound 1 _ _ _ H)) _).
  vm_compute. reflexivity.
Defined.

(** ** Degrees against edges *)

Lemma sum_degrees_insert_new (x : string) (d : Z) (N : gmap string Z) :
  N !! x = None → sum_degrees (<[x:=d]> N) = d + sum_degrees N.
Proof.
  intros Hx. unfold sum_degrees.
  rewrite map_fold_insert_L; [done| |done]. intros; lia.
Qed.

Lemma sum_degrees_delete (x : string) (d : Z) (N : gmap string Z) :
  N !! x = Some d → sum_degrees N = d + sum_degrees (delete x N).
Proof.
  intros Hx. unfold sum_degrees.
  rewrite (map_fold_delete_L _ _ x d N); [done| |done]. intros; lia.
Qed.

Lemma sum_degrees_insert_old (x : string) (d d' : Z) (N : gmap string Z) :
  N !! x = Some d → sum_degrees (<[x:=d']> N) = d' - d + sum_degrees N.
Proof.
  intros Hx. rewrite <-(insert_delete_eq N x d').
  rewrite sum_degrees_insert_new by apply lookup_delete_eq.
  rewrite (sum_degrees_delete x d N Hx). lia.
Qed.

Lemma bump_sum (x : string) (N : gmap string Z) :
  sum_degrees (bump x N) = sum_degrees N + 1.
Proof.
  unfold bump. destruct (N !! x) as [d|] eqn:Hx.
  - rewrite (sum_degrees_insert_old x d) by done. lia.
  - rewrite sum_degrees_insert_new by done. lia.
Qed.

Lemma drop_sum (x : string) (N N' : gmap string Z) :
  drop x N = Ok N' → sum_degrees N' = sum_degrees N - 1.
Proof.
  unfold drop. destruct (N !! x) as [d|] eqn:Hx; [|done].
  destruct (Z.eqb_spec d 1) as [->|Hne]; intros [= <-].
  - rewrite (sum_degrees_delete x 1 N Hx). lia.
  - rewrite (sum_degrees_insert_old x d) by done. lia.
Qed.

Lemma size_delete_present (e : edge) (t : Z) (E : gmap edge Z) :
  E !! e = Some t → size E = S (size (delete e E)).
Proof.
  intros He. rewrite <-(insert_delete_id E e t He) at 1.
  apply map_size_insert_None, lookup_delete_eq.
Qed.

Lemma evict_sum (l : list edge) :
  ∀ (E E' : gmap edge Z) (N N' : gmap string Z),
    evict l E N = Ok (E', N') →
    sum_degrees N' - 2 * Z.of_nat (size E')
    = sum_degrees N - 2 * Z.of_nat (size E).
Proof.
  induction l as [|e l IH]; intros E E' N N' H; simpl in H.
  - by injection H as <- <-.
  - destruct (E !! e) as [t|] eqn:He; [|done].
    apply bind_Ok in H as (N1 & H1 & H). apply bind_Ok in H as (N2 & H2 & H).
    rewrite (IH _ _ _ _ H), (drop_sum _ _ _ H2), (drop_sum _ _ _ H1).
    rewrite (size_delete_present e t E He). lia.
Qed.

Lemma add_edge_sum (e : edge) (T : Z) (E : gmap edge Z) (N : gmap string Z) :
  sum_degrees (add_edge e T E N).2 - 2 * Z.of_nat (size (add_edge e T E N).1)
  = sum_degrees N - 2 * Z.of_nat (size E).
Proof.
  unfold add_edge. destruct (E !! e) as [t|] eqn:He; simpl.
  - rewrite map_size_insert_Some by eauto. done.
  - rewrite map_size_insert_None by done. unfold bump_ends.
    rewrite !bump_sum. lia.
Qed.

Lemma update_sum (s s' : state) (e : edge) (T : Z) (w : list string) :
  update s e T = Ok (s', w) →
  sum_degrees (nodes s') - 2 * Z.of_nat (size (edges s'))
  = sum_degrees (nodes s) - 2 * Z.of_nat (size (edges s)).
Proof.
  update_cases s T; intros H.
  - apply bind_Ok in H as ([latest g] & Hsw & H).
    apply bind_Ok in Hsw as ([E' N'] & Hsw & [= <- <-]).
    apply bind_Ok in H as (m & _ & [= <- <-]). simpl.
    apply sweep_Ok in Hsw as [_ Hsw].
    rewrite (evict_sum _ _ _ _ _ Hsw). apply add_edge_sum.
  - apply bind_Ok in H as ([latest g] & [= <- <-] & H).
    apply bind_Ok in H as (m & _ & [= <- <-]). simpl. apply add_edge_sum.
  - destruct (edges s !! e) as [t0|] eqn:He0.
    + injection H as <- <-. simpl. destruct (t0 <? T); [|done].
      rewrite map_size_insert_Some by eauto. done.
    + apply bind_Ok in H as (m & _ & [= <- <-]). simpl.
      rewrite map_size_insert_None by done. unfold bump_ends.
      rewrite !bump_sum. lia.
  - by injection H as <- <-.
Qed.

Lemma process_sum (s s' : state) (l : line) (w : list string) :
  process s l = Ok (s', w) →
  sum_degrees (nodes s') - 2 * Z.of_nat (size (edges s'))
  = sum_degrees (nodes s) - 2 * Z.of_nat (size (edges s)).
Proof.
  intros [(_ & -> & _)|(e & T & _ & Hu)]%process_Ok; [done|].
  by eapply update_sum.
Qed.

(** In every run whose first transaction is between two different users,
    after every line the degrees of the node table add up to twice the
    number of edges of the edge table. *)
Theorem degrees_sum (fuel : nat) (input : list line) (s : state)
    (out : list string) :
  proper_start input → main fuel input = Finished s out →
  sum_degrees (nodes s) = 2 * Z.of_nat (size (edges s)).
Proof.
  intros Hstart Hmain.
  cut (sum_degrees (nodes s) - 2 * Z.of_nat (size (edges s)) = 0); [lia|].
  revert fuel input s out Hstart Hmain. apply main_proper_invariant.
  - intros e T Hne. simpl. rewrite map_size_singleton.
    rewrite sum_degrees_insert_new by (by rewrite lookup_singleton_ne).
    rewrite <-insert_empty, sum_degrees_insert_new by done. done.
  - intros s0 l s' w HI Hp. by rewrite (process_sum _ _ _ _ Hp).
Qed.

Lemma degrees_sum_witness :
  proper_start [txn 0 0 "A" "B"; txn 0 1 "B" "C"; txn 0 2 "C" "C"] ∧
  ∃ s out,
    main 1 [txn 0 0 "A" "B"; txn 0 1 "B" "C"; txn 0 2 "C" "C"]
    = Finished s out ∧
    sum_degrees (nodes s) = 2 * Z.of_nat (size (edges s)).
Proof.
  assert (proper_start [txn 0 0 "A" "B"; txn 0 1 "B" "C";
                        txn 0 2 "C" "C"]) as Hstart
    by (vm_compute; discriminate).
  split; [exact Hstart|]. eexists _, _.
  refine ((λ H, conj H (degrees_sum 1 _ _ _ Hstart H)) _).
  vm_compute. reflexivity.
Defined.

(** ** An edge added and evicted *)

(** On a node table whose degrees are at least 1, adding an edge that is
    not in the edge table and evicting it at once gives back the two tables
    as they were, also for an edge from a node to itself. *)
Theorem add_then_evict (e : edge) (T : Z) (E : gmap edge Z) (N : gmap string Z) :
  E !! e = None → (∀ n d, N !! n = Some d → 1 ≤ d) →
  evict [e] (add_edge e T E N).1 (add_edge e T E N).2 = Ok (E, N).
Proof.
  intros He Hpos. unfold add_edge. rewrite He. simpl.
  rewrite lookup_insert_eq.
  pose (c := λ n, Z.to_nat (default 0 (N !! n))).
  assert (∀ n, N !! n = to_degree (c n)) as HN.
  { intros n. unfold c, to_degree. destruct (N !! n) as [d|] eqn:Hn; simpl.
    - apply Hpos in Hn. rewrite decide_False by lia. f_equal. lia.
    - done. }
  pose proof (bump_counts c N HN e.1) as H1.
  pose proof (bump_counts _ (bump e.1 N) H1 e.2) as H2.
  fold (bump_ends e N) in H2.
  destruct (drop_counts _ (bump_ends e N) H2 e.1) as (N1 & Hd1 & HN1).
  { simpl. rewrite decide_True by done. lia. }
  destruct (drop_counts _ N1 HN1 e.2) as (N2 & Hd2 & HN2).
  { simpl. rewrite (decide_True (P := e.2 = e.2)) by done.
    repeat case_decide; lia. }
  rewrite Hd1. simpl. rewrite Hd2. simpl. f_equal. f_equal.
  - by apply delete_insert_id.
  - apply map_eq. intros n. rewrite HN2, HN. f_equal.
    repeat case_decide; lia.
Qed.

Lemma add_then_evict_witness :
  ({[("A", "B") := 0]} : gmap edge Z) !! ("B", "B") = None ∧
  evict [("B", "B")]
    (add_edge ("B", "B") 7 {[("A", "B") := 0]} (<["B" := 1]> {["A" := 1]})).1
    (add_edge ("B", "B") 7 {[("A", "B") := 0]} (<["B" := 1]> {["A" := 1]})).2
  = Ok ({[("A", "B") := 0]}, <["B" := 1]> {["A" := 1]}).
Proof.
  split; [reflexivity|].
  apply add_then_evict; [reflexivity|].
  intros n d. rewrite lookup_insert. case_decide; [intros [= <-]; lia|].
  intros [_ <-]%lookup_singleton_Some. lia.
Defined.

(** ** The clock and the life of an edge *)

Lemma last_seen_grows (e : edge) (evs : list (edge * Z)) (l : line) (t : Z) :
  last_seen e evs = Some t →
  ∃ t', last_seen e (evs ++ events [l]) = Some t' ∧ t ≤ t'.
Proof.
  intros Ht. rewrite events_single.
  destruct (event_of l) as [ev|].
  - rewrite last_seen_snoc. case_decide.
    + rewrite Ht. simpl. eexists; split; [done|lia].
    + eauto with lia.
  - rewrite app_nil_r. eauto with lia.
Qed.

Lemma clock_grows (evs : list (edge * Z)) (l : line) (c c' : Z) :
  clock evs = Some c → clock (evs ++ events [l]) = Some c' → c ≤ c'.
Proof.
  intros Hc. rewrite events_single. destruct (event_of l) as [ev|].
  - rewrite clock_snoc, Hc. simpl. intros [= <-]. lia.
  - rewrite app_nil_r, Hc. intros [= <-]. lia.
Qed.

(** From a state reached by a run, a line never moves the latest time
    backward, never moves the time of an edge backward, and takes an edge
    out of the table only when it moves the latest time forward, to 60
    seconds or more after the time of that edge. *)
Theorem edges_only_expire (fuel : nat) (input : list line) (s s' : state)
    (out w : list string) (l : line) :
  main fuel input = Finished s out → process s l = Ok (s', w) →
  latest_time s ≤ latest_time s' ∧
  ∀ e t, edges s !! e = Some t →
         (∃ t', edges s' !! e = Some t' ∧ t ≤ t') ∨
         (edges s' !! e = None ∧ latest_time s < latest_time s' ∧
          t ≤ latest_time s' - 60).
Proof.
  intros Hmain Hp.
  pose proof (main_in_window _ _ _ _ Hmain) as Hw.
  pose proof (process_in_window _ _ _ _ _ Hw Hp) as [Hc' HE'].
  destruct Hw as [Hc HE].
  split; [by eapply clock_grows|].
  intros e t [Hls Hin]%HE.
  destruct (last_seen_grows e _ l t Hls) as (t' & Hls' & Hle).
  unfold time_window in *.
  destruct (decide (latest_time s' - 60 < t')) as [Hin'|Hout].
  - left. exists t'. split; [|done]. by apply HE'.
  - right. split; [|lia].
    destruct (edges s' !! e) as [u|] eqn:Hu; [|done].
    apply HE' in Hu as [Hu ?]. rewrite Hls' in Hu. injection Hu as <-. lia.
Qed.

Lemma edges_only_expire_witness :
  let s := first_state ("A", "B") (txn_time 0 0) in
  let s' := State (txn_time 1 10) {[("C", "D") := txn_time 1 10]}
                  (<["D" := 1]> {["C" := 1]}) 1 (format_median 1) in
  process s (txn 1 10 "C" "D") = Ok (s', [format_median 1]) ∧
  latest_time s ≤ latest_time s' ∧
  ∀ e t, edges s !! e = Some t →
         (∃ t', edges s' !! e = Some t' ∧ t ≤ t') ∨
         (edges s' !! e = None ∧ latest_time s < latest_time s' ∧
          t ≤ latest_time s' - 60).
Proof.
  intros s s'.
  assert (process s (txn 1 10 "C" "D") = Ok (s', [format_median 1])) as Hp
    by (vm_compute; reflexivity).
  split; [exact Hp|].
  exact (edges_only_expire 1 [txn 0 0 "A" "B"] s s' [format_median 1] _ _
           eq_refl Hp).
Defined.

Lemma clock_attained (evs : list (edge * Z)) (c : Z) :
  clock evs = Some c → ∃ e, last_seen e evs = Some c.
Proof.
  revert c. induction evs as [|ev evs IH] using rev_ind; intros c; [done|].
  rewrite clock_snoc. intros [= <-].
  destruct (clock evs) as [c0|] eqn:Hc0; simpl.
  - destruct (decide (c0 ≤ ev.2)) as [Hle|Hgt].
    + exists ev.1. rewrite last_seen_snoc, decide_True by done.
      f_equal. rewrite later_new; [lia|].
      intros u (c1 & Hc1 & ?)%last_seen_le_clock.
      rewrite Hc0 in Hc1. injection Hc1 as <-. lia.
    + destruct (IH c0 eq_refl) as [e He]. exists e.
      rewrite last_seen_snoc, He. case_decide; simpl; f_equal; lia.
  - exists ev.1. rewrite last_seen_snoc, decide_True by done.
    f_equal. apply later_new.
    intros u (c1 & Hc1 & ?)%last_seen_le_clock. congruence.
Qed.

(** After every line some edge of the table has the latest time as its
    time, and the time of every edge lies in the 60 seconds that end with
    the latest time, the start excluded: the edge table is never empty and
    the latest time is the largest time in it. *)
Theorem latest_time_in_table (fuel : nat) (input : list line) (s : state)
    (out : list string) :
  main fuel input = Finished s out →
  (∃ e, edges s !! e = Some (latest_time s)) ∧
  ∀ e t, edges s !! e = Some t →
         latest_time s - 60 < t ∧ t ≤ latest_time s.
Proof.
  intros Hmain. destruct (main_in_window _ _ _ _ Hmain) as [Hc HE].
  unfold time_window in HE. split.
  - destruct (clock_attained _ _ Hc) as [e He]. exists e.
    apply HE. split; [done|lia].
  - intros e t [Hls Hin]%HE. split; [done|].
    apply last_seen_le_clock in Hls as (c & Hc' & ?). congruence.
Qed.

Lemma latest_time_in_table_witness :
  ∃ s out,
    main 1 [txn 0 0 "A" "B"; txn 1 10 "B" "C"; txn 0 50 "A" "C"]
    = Finished s out ∧
    (∃ e, edges s !! e = Some (latest_time s)) ∧
    ∀ e t, edges s !! e = Some t →
           latest_time s - 60 < t ∧ t ≤ latest_time s.
Proof.
  eexists _, _.
  refine ((λ H, conj H (latest_time_in_table 1 _ _ _ H)) _).
  vm_compute. reflexivity.
Defined.

(** ** The whole run *)

(** When the first transaction of the input is between two different users,
    no line with the pattern and two names has a time that is no date or is
    in the first 60 seconds of the year 1, and the first loop has fuel for
    the lines of the input, the run ends without an exception and one line
    is written for each line of the input on which [edge_from_str] finds an
    edge, none for the others. *)
Theorem run_completes (fuel : nat) (input : list line) :
  proper_start input → Forall plain input → events input ≠ [] →
  (length input ≤ fuel)%nat →
  ∃ s out, main fuel input = Finished s out ∧
           length out = length (events input).
Proof.
  intros Hstart Hplain Hev Hfuel.
  destruct (main fuel input) as [s out|e out|out] eqn:Hmain.
  - exists s, out. split; [done|]. by eapply one_line_per_event.
  - by apply main_no_exception in Hmain.
  - by apply main_halts in Hmain.
Qed.

Lemma run_completes_witness :
  proper_start [Unmatched; txn 0 0 "A" "B"; txn 0 1 "" "C";
                txn 0 2 "B" "C"; txn 1 5 "C" "C"] ∧
  Forall plain [Unmatched; txn 0 0 "A" "B"; txn 0 1 "" "C";
                txn 0 2 "B" "C"; txn 1 5 "C" "C"] ∧
  length (events [Unmatched; txn 0 0 "A" "B"; txn 0 1 "" "C";
                  txn 0 2 "B" "C"; txn 1 5 "C" "C"]) = 3%nat ∧
  ∃ s out,
    main 5 [Unmatched; txn 0 0 "A" "B"; txn 0 1 "" "C"; txn 0 2 "B" "C";
            txn 1 5 "C" "C"]
    = Finished s out ∧
    length out = length (events [Unmatched; txn 0 0 "A" "B"; txn 0 1 "" "C";
                                 txn 0 2 "B" "C"; txn 1 5 "C" "C"]).
Proof.
  assert (proper_start [Unmatched; txn 0 0 "A" "B"; txn 0 1 "" "C";
                        txn 0 2 "B" "C"; txn 1 5 "C" "C"]) as Hstart
    by (vm_compute; discriminate).
  assert (Forall plain [Unmatched; txn 0 0 "A" "B"; txn 0 1 "" "C";
                        txn 0 2 "B" "C"; txn 1 5 "C" "C"]) as Hplain.
  { repeat (apply Forall_cons_2; [vm_compute; try done; discriminate|]).
    apply Forall_nil_2. }
  split; [exact Hstart|]. split; [exact Hplain|].
  split; [vm_compute; reflexivity|].
  apply (run_completes 5 _ Hstart Hplain).
  - vm_compute. discriminate.
  - simpl. lia.
Defined.

(** ** What [edge_from_str] returns *)

(** On a line where the pattern is found, [edge_from_str] returns nothing
    exactly when the target or the actor is empty, whatever the time; with
    two names it raises [ValueError], and nothing else, when the fields of the
    time are no numbers or no date, and otherwise returns the seconds of that
    date from the start of the year 1, not negative, with the two names, the
    second not before the first; and the same whichever of the two names is
    the target. *)
Theorem edge_from_str_spec (time_ints : option fields)
    (target actor : string) :
  (edge_from_str (Matched time_ints target actor) = Ok None
   ↔ target = "" ∨ actor = "") ∧
  (∀ x, edge_from_str (Matched time_ints target actor) = Raise x ↔
        x = ValueError ∧ target ≠ "" ∧ actor ≠ "" ∧
        ∀ f, time_ints = Some f → datetime f = Raise ValueError) ∧
  (∀ e T, edge_from_str (Matched time_ints target actor) = Ok (Some (e, T)) ↔
          target ≠ "" ∧ actor ≠ "" ∧ e = sorted_pair target actor ∧
          ∃ f, time_ints = Some f ∧ datetime f = Ok T) ∧
  (∀ e T, edge_from_str (Matched time_ints target actor) = Ok (Some (e, T)) →
          0 ≤ T ∧ ordered_edge e ∧
          (e = (target, actor) ∨ e = (actor, target))) ∧
  edge_from_str (Matched time_ints actor target)
  = edge_from_str (Matched time_ints target actor).
Proof.
  assert (∀ f x, datetime f = Raise x → x = ValueError) as Hdt.
  { intros f x Hf.
    apply (edge_from_str_Raise (Matched (Some f) "a" "a")).
    simpl. by rewrite Hf. }
  assert (∀ a : string, truthy a = true ↔ a ≠ "") as Htr
    by (intros a; by destruct a).
  assert (∀ a : string, truthy a = false ↔ a = "") as Hfa
    by (intros a; by destruct a).
  split; [|split; [|split; [|split]]].
  - simpl. destruct (truthy target) eqn:Ht, (truthy actor) eqn:Ha; simpl;
      rewrite ?Hfa in *; rewrite ?Htr in *.
    + split; [|by intros [?|?]].
      destruct time_ints as [f|]; [|done]. by destruct (datetime f).
    + split; [eauto|done].
    + split; [eauto|done].
    + split; [eauto|done].
  - intros x. simpl.
    destruct (truthy target) eqn:Ht, (truthy actor) eqn:Ha; simpl;
      rewrite ?Hfa in *; rewrite ?Htr in *;
      try (split; [done|by intros (_ & ? & ? & _)]).
    destruct time_ints as [f|].
    + destruct (datetime f) as [t|y] eqn:Hf; simpl.
      * split; [done|]. intros (_ & _ & _ & Hno).
        specialize (Hno f eq_refl). congruence.
      * rewrite (Hdt _ _ Hf). split.
        -- intros [= <-]. repeat split; try done. intros f' [= <-].
           by rewrite Hf, (Hdt _ _ Hf).
        -- by intros (-> & _).
    + split; [intros [= <-]; repeat split; done|by intros (-> & _)].
  - intros e T. simpl.
    destruct (truthy target) eqn:Ht, (truthy actor) eqn:Ha; simpl;
      rewrite ?Hfa in *; rewrite ?Htr in *;
      try (split; [done|by intros (? & ? & _)]).
    destruct time_ints as [f|].
    + destruct (datetime f) as [t|y] eqn:Hf; simpl.
      * split.
        -- intros [= <- <-]. repeat split; try done. eauto.
        -- intros (_ & _ & -> & f' & [= <-] & Hf').
           rewrite Hf in Hf'. by injection Hf' as <-.
      * split; [done|]. intros (_ & _ & _ & f' & [= <-] & Hf'). congruence.
    + split; [done|]. by intros (_ & _ & _ & f' & ? & _).
  - intros e T H. pose proof (edge_from_str_ordered _ _ _ H) as Hord.
    pose proof (edge_from_str_nonneg _ _ _ H) as Hpos.
    split; [done|]. split; [done|].
    simpl in H. destruct (truthy target && truthy actor); [|done].
    destruct time_ints as [f|]; [|done]. destruct (datetime f); [|done].
    injection H as <- <-.
    unfold sorted_pair. destruct (String.ltb actor target); eauto.
  - apply (edge_from_str_swap (Matched time_ints target actor)).
Qed.

Lemma edge_from_str_spec_witness :
  edge_from_str (txn 45 54 "bob" "alice")
  = Ok (Some (("alice", "bob"), 63603416754)) ∧
  0 ≤ 63603416754 ∧ ordered_edge ("alice", "bob") ∧
  edge_from_str (Matched (Some (Fields 2016 13 1 0 0 0)) "bob" "alice")
  = Raise ValueError ∧
  edge_from_str (Matched (Some (Fields 2016 13 1 0 0 0)) "" "alice")
  = Ok None.
Proof.
  assert (edge_from_str (txn 45 54 "bob" "alice")
          = Ok (Some (("alice", "bob"), 63603416754))) as H
    by (vm_compute; reflexivity).
  destruct (edge_from_str_spec (Some (Fields 2016 7 6 15 45 54)) "bob" "alice")
    as (_ & _ & _ & Hs & _).
  destruct (Hs _ _ H) as (Hpos & Hord & _).
  split; [exact H|]. split; [exact Hpos|]. split; [exact Hord|].
  destruct (edge_from_str_spec (Some (Fields 2016 13 1 0 0 0)) "bob" "alice")
    as (_ & Hr & _).
  split.
  - apply Hr. split; [reflexivity|]. split; [discriminate|].
    split; [discriminate|]. intros f [= <-]. vm_compute. reflexivity.
  - exact (proj2 (proj1 (edge_from_str_spec
                           (Some (Fields 2016 13 1 0 0 0)) "" "alice"))
             (or_introl eq_refl)).
Defined.

(** ** The exception *)

Lemma bump_lookup_ne (x n : string) (N : gmap string Z) :
  x ≠ n → bump x N !! n = N !! n.
Proof.
  intros Hne. unfold bump. destruct (N !! x); by rewrite lookup_insert_ne.
Qed.

Lemma sorted_pair_self (X : string) : sorted_pair X X = (X, X).
Proof. unfold sorted_pair. by destruct (String.ltb X X). Qed.

(** When the first transaction is of a user X with themselves and the next
    one is between two other users, 60 seconds or more later, the eviction
    of the pair (X, X) raises [KeyError]: the run ends there, with the one
    line of the first transaction written, whatever lines follow. *)
Theorem lone_self_pair_raises (fuel : nat) (l1 l2 : line) (T T' : Z)
    (X : string) (e2 : edge) (rest : list line) :
  edge_from_str l1 = Ok (Some ((X, X), T)) →
  edge_from_str l2 = Ok (Some (e2, T')) →
  e2.1 ≠ X → e2.2 ≠ X → T + 60 ≤ T' →
  main (S fuel) (l1 :: l2 :: rest) = Raised KeyError [format_median 1].
Proof.
  intros Hl1 Hl2 H1 H2 HT.
  pose proof (edge_from_str_nonneg _ _ _ Hl1) as HT0.
  assert (e2 ≠ (X, X)) as Hne by (intros Heq; rewrite Heq in H1; done).
  unfold main. cbn [bootstrap readline]. rewrite Hl1. cbn [run].
  rewrite (process_event _ _ _ _ Hl2), update_later by (simpl; lia).
  cut (sweep T' (add_edge e2 T' (edges (first_state (X, X) T))
                    (nodes (first_state (X, X) T))).1
                (add_edge e2 T' (edges (first_state (X, X) T))
                    (nodes (first_state (X, X) T))).2
       = Raise KeyError).
  { by intros ->. }
  unfold add_edge. simpl. rewrite lookup_singleton_ne by done. simpl.
  rewrite insert_singleton_eq.
  set (E1 := <[e2:=T']> {[(X, X) := T]}).
  set (N1 := bump_ends e2 {[X := 1]}).
  rewrite sweep_late by (unfold time_window; lia).
  rewrite evict_drops. case_decide as Hok; [|done].
  assert (evict_edges (T' - time_window) E1 ≡ₚ [(X, X)]) as Hperm.
  { apply NoDup_Permutation; [apply NoDup_evict_edges|apply NoDup_singleton|].
    intros e. rewrite elem_of_evict_edges, list_elem_of_singleton.
    unfold E1, time_window. split.
    - intros (t & Ht & Hle). apply lookup_insert_Some in Ht as [[_ <-]|[_ Ht]].
      + lia.
      + by apply lookup_singleton_Some in Ht as [<- _].
    - intros ->. exists T. rewrite lookup_insert_ne by done.
      rewrite lookup_singleton_eq. split; [done|lia]. }
  rewrite (drops_Permutation _ [X; X]) by (by rewrite Hperm).
  assert (N1 !! X = Some 1) as HN1.
  { unfold N1, bump_ends. rewrite !bump_lookup_ne by done.
    apply lookup_singleton_eq. }
  simpl. unfold drop at 2. rewrite HN1. simpl.
  unfold drop. by rewrite lookup_delete_eq.
Qed.

Lemma lone_self_pair_raises_witness :
  main 1 [txn 0 10 "X" "X"; txn 1 10 "B" "A"; txn 1 11 "A" "C"]
  = Raised KeyError [format_median 1].
Proof.
  apply (lone_self_pair_raises 0 (txn 0 10 "X" "X") (txn 1 10 "B" "A")
           (txn_time 0 10) (txn_time 1 10) "X" ("A", "B")).
  - vm_compute. reflexivity.
  - vm_compute. reflexivity.
  - discriminate.
  - discriminate.
  - vm_compute. discriminate.
Defined.

(** ** Lines written and lines to come *)

Lemma run_written_prefix (rest : list line) : ∀ (s : state) (out : list string),
  out `prefix_of` written (run s out rest).
Proof.
  induction rest as [|l rest IH]; intros s out; simpl; [done|].
  destruct (process s l) as [[s' w]|e]; simpl; [|done].
  etrans; [|apply IH]. by apply prefix_app_r.
Qed.

(** The lines written for an input are not changed by the lines that come
    after it: they are the first lines written for any longer input. *)
Theorem written_is_prefix (fuel : nat) (input more : list line) (s : state)
    (out : list string) :
  main fuel input = Finished s out →
  out `prefix_of` written (main fuel (input ++ more)).
Proof.
  intros Hmain. rewrite (main_app _ _ _ _ _ Hmain). apply run_written_prefix.
Qed.

Lemma written_is_prefix_witness :
  main 1 [txn 0 0 "A" "B"]
  = Finished (first_state ("A", "B") (txn_time 0 0)) [format_median 1] ∧
  [format_median 1]
    `prefix_of` written (main 1 ([txn 0 0 "A" "B"] ++ [txn 0 1 "B" "C"])).
Proof.
  split; [reflexivity|].
  exact (written_is_prefix 1 [txn 0 0 "A" "B"] [txn 0 1 "B" "C"] _ _
           eq_refl).
Defined.

(** ** The order of the lines *)

Lemma last_seen_step_comm (e : edge) (acc : option Z) (a b : edge * Z) :
  (if decide (b.1 = e)
   then Some (later (if decide (a.1 = e) then Some (later acc a.2) else acc) b.2)
   else (if decide (a.1 = e) then Some (later acc a.2) else acc))
  = (if decide (a.1 = e)
     then Some (later (if decide (b.1 = e) then Some (later acc b.2) else acc) a.2)
     else (if decide (b.1 = e) then Some (later acc b.2) else acc)).
Proof.
  destruct (decide (a.1 = e)), (decide (b.1 = e)); try done.
  f_equal. destruct acc; simpl; lia.
Qed.

Lemma last_seen_Permutation (e : edge) (evs evs' : list (edge * Z)) :
  evs ≡ₚ evs' → last_seen e evs = last_seen e evs'.
Proof.
  intros Hp. unfold last_seen. generalize (@None Z).
  induction Hp as [|x l1 l2 _ IH|x y l|l1 l2 l3 _ IH1 _ IH2]; intros acc.
  - done.
  - simpl. apply IH.
  - simpl. by rewrite last_seen_step_comm.
  - by rewrite IH1.
Qed.

Lemma clock_Permutation (evs evs' : list (edge * Z)) :
  evs ≡ₚ evs' → clock evs = clock evs'.
Proof.
  intros Hp. unfold clock. generalize (@None Z).
  induction Hp as [|x l1 l2 _ IH|x y l|l1 l2 l3 _ IH1 _ IH2]; intros acc.
  - done.
  - simpl. apply IH.
  - simpl. f_equal. f_equal. destruct acc; simpl; lia.
  - by rewrite IH1.
Qed.

(** Two inputs that hold the same events, in whatever order, each with a
    first transaction between two different users, end in the same state,
    with the same last line written. *)
Theorem order_of_lines_free (fuel fuel' : nat) (input input' : list line)
    (s s' : state) (out out' : list string) :
  proper_start input → proper_start input' →
  events input ≡ₚ events input' →
  main fuel input = Finished s out → main fuel' input' = Finished s' out' →
  s = s' ∧ last out = last out'.
Proof.
  intros Hstart Hstart' Hperm Hmain Hmain'.
  destruct (main_in_window _ _ _ _ Hmain) as [Hc HE].
  destruct (main_in_window _ _ _ _ Hmain') as [Hc' HE'].
  pose proof (main_consistent _ _ _ _ Hstart Hmain) as HN.
  pose proof (main_consistent _ _ _ _ Hstart' Hmain') as HN'.
  destruct (main_reported _ _ _ _ Hmain) as ([Hm Hstr] & Hlast & _).
  destruct (main_reported _ _ _ _ Hmain') as ([Hm' Hstr'] & Hlast' & _).
  assert (latest_time s = latest_time s') as Hlt.
  { rewrite (clock_Permutation _ _ Hperm), Hc' in Hc. by injection Hc. }
  assert (edges s = edges s') as Hedges.
  { apply map_eq. intros e. apply option_eq. intros t.
    rewrite HE, HE', (last_seen_Permutation e _ _ Hperm), Hlt. done. }
  assert (nodes s = nodes s') as Hnodes.
  { apply map_eq. intros n. by rewrite HN, HN', Hedges. }
  assert (median_degree s = median_degree s') as Hmed.
  { rewrite Hnodes, Hm' in Hm. by injection Hm. }
  assert (med_degree_str s = med_degree_str s') as Hs
    by (by rewrite Hstr, Hstr', Hmed).
  split; [|by rewrite Hlast, Hlast', Hs].
  destruct s, s'. simpl in *. by subst.
Qed.

Lemma order_of_lines_free_witness :
  ∃ s out out',
    main 1 [txn 0 0 "A" "B"; txn 1 10 "B" "C"; txn 0 50 "A" "C"]
    = Finished s out ∧
    main 2 [txn 0 50 "A" "C"; Unmatched; txn 0 0 "A" "B"; txn 1 10 "B" "C"]
    = Finished s out' ∧
    last out = last out'.
Proof.
  assert (proper_start
            [txn 0 0 "A" "B"; txn 1 10 "B" "C"; txn 0 50 "A" "C"])
    as H1 by (vm_compute; discriminate).
  assert (proper_start
            [txn 0 50 "A" "C"; Unmatched; txn 0 0 "A" "B";
             txn 1 10 "B" "C"])
    as H2 by (vm_compute; discriminate).
  assert (events [txn 0 0 "A" "B"; txn 1 10 "B" "C"; txn 0 50 "A" "C"]
          ≡ₚ events [txn 0 50 "A" "C"; Unmatched; txn 0 0 "A" "B";
                     txn 1 10 "B" "C"]) as H3.
  { change ([(("A", "B"), txn_time 0 0); (("B", "C"), txn_time 1 10);
             (("A", "C"), txn_time 0 50)]
            ≡ₚ [(("A", "C"), txn_time 0 50); (("A", "B"), txn_time 0 0);
                (("B", "C"), txn_time 1 10)]).
    symmetry. apply (Permutation_cons_append [_; _]). }
  eexists _, _, _.
  split; [vm_compute; reflexivity|]. split; [vm_compute; reflexivity|].
  refine (proj2 (order_of_lines_free 1 2 _ _ _ _ _ _ H1 H2 H3 _ _));
    vm_compute; reflexivity.
Defined.

(** ** A transaction of a user with themselves, after the first *)

Lemma incidence_zero (n : string) (E : gmap edge Z) :
  (∀ e t, E !! e = Some t → occ n e = 0%nat) → incidence n E = 0%nat.
Proof.
  induction E as [|e t E He IH] using map_ind; intros H.
  - apply incidence_empty.
  - rewrite incidence_insert_new by done.
    rewrite (H e t) by apply lookup_insert_eq. rewrite IH; [done|].
    intros e' t' He'. apply (H e' t').
    rewrite lookup_insert_ne; [done|]. intros <-. congruence.
Qed.

Lemma update_new_edge (s s' : state) (e : edge) (T : Z) (w : list string) :
  edges s !! e = None → - 60 < T - latest_time s →
  update s e T = Ok (s', w) →
  edges s' !! e = Some T ∧
  ∀ e' t, e' ≠ e → edges s' !! e' = Some t → edges s !! e' = Some t.
Proof.
  intros He Hw. update_cases s T; intros H.
  - apply bind_Ok in H as ([latest g] & Hsw & H).
    apply bind_Ok in Hsw as ([E' N'] & Hsw & [= <- <-]).
    apply bind_Ok in H as (m & _ & [= <- <-]). simpl.
    rewrite add_edge_table in Hsw. split.
    + apply (sweep_lookup _ _ _ _ _ Hsw). rewrite lookup_insert_eq.
      unfold time_window. split; [done|lia].
    + intros e' t Hne [Ht _]%(sweep_lookup _ _ _ _ _ Hsw).
      by rewrite lookup_insert_ne in Ht.
  - apply bind_Ok in H as ([latest g] & [= <- <-] & H).
    apply bind_Ok in H as (m & _ & [= <- <-]). simpl.
    rewrite add_edge_table. split; [apply lookup_insert_eq|].
    intros e' t Hne Ht. by rewrite lookup_insert_ne in Ht.
  - rewrite He in H.
    apply bind_Ok in H as (m & _ & [= <- <-]). simpl.
    split; [apply lookup_insert_eq|].
    intros e' t Hne Ht. by rewrite lookup_insert_ne in Ht.
  - lia.
Qed.

(** In a run whose first transaction is between two different users, a
    transaction of X with X inside the window, not moving the latest time
    into the first 60 seconds of the year 1, the pair (X, X) not being in
    the edge table, is processed without an exception; the pair is then in
    the table and X has degree 2 plus the number of ends at X of the other
    edges of the table: degree 2 when X was not a node before, one edge of
    the table then containing X. *)
Theorem self_pair_degree (fuel : nat) (input : list line) (s : state)
    (out : list string) (l : line) (X : string) (T : Z) :
  proper_start input → main fuel input = Finished s out →
  edge_from_str l = Ok (Some ((X, X), T)) → edges s !! (X, X) = None →
  - 60 < T - latest_time s → (latest_time s < T → 60 ≤ T) →
  ∃ s' w,
    process s l = Ok (s', w) ∧ edges s' !! (X, X) = Some T ∧
    nodes s' !! X
    = Some (2 + Z.of_nat (incidence X (delete (X, X) (edges s')))) ∧
    (nodes s !! X = None →
     nodes s' !! X = Some 2 ∧ edges_containing X (edges s') = 1%nat).
Proof.
  intros Hstart Hmain Hl He Hw Hlate.
  pose proof (main_consistent _ _ _ _ Hstart Hmain) as HN.
  destruct (update_consistent s (X, X) T HN Hlate) as (s' & w & Hp & HN').
  destruct (update_new_edge _ _ _ _ _ He Hw Hp) as [HX Hsub].
  exists s', w. split; [by rewrite (process_event _ _ _ _ Hl)|].
  split; [done|].
  assert (nodes s' !! X
          = Some (2 + Z.of_nat (incidence X (delete (X, X) (edges s'))))) as Hd.
  { rewrite (HN' X), (incidence_delete X (X, X) T _ HX), occ_split. simpl.
    rewrite decide_True by done. unfold to_degree.
    rewrite decide_False by lia. f_equal. lia. }
  split; [done|]. intros Hnew.
  assert (∀ e' t, delete (X, X) (edges s') !! e' = Some t →
                  occ X e' = 0%nat) as Hnone.
  { intros e' t [Hne He']%lookup_delete_Some.
    apply Hsub in He'; [|done].
    pose proof (incidence_member X e' t _ He') as Hle.
    rewrite (HN X) in Hnew. apply to_degree_None in Hnew. lia. }
  split; [rewrite Hd, incidence_zero; done|].
  rewrite <-(insert_delete_id (edges s') (X, X) T HX).
  rewrite edges_containing_insert_new by apply lookup_delete_eq.
  simpl. rewrite decide_True by (by left).
  cut (edges_containing X (delete (X, X) (edges s')) = 0%nat); [lia|].
  revert Hnone. generalize (delete (X, X) (edges s')). intros E.
  induction E as [|e t E Het IH] using map_ind; intros Hnone; [done|].
  rewrite edges_containing_insert_new by done.
  rewrite IH.
  - specialize (Hnone e t (lookup_insert_eq _ _ _)).
    rewrite occ_split in Hnone. rewrite decide_False; [done|].
    intros [?|?]; repeat case_decide; done || lia.
  - intros e' t' He'. apply (Hnone e' t').
    rewrite lookup_insert_ne; [done|]. intros <-. congruence.
Qed.

Lemma self_pair_degree_witness :
  proper_start [txn 0 0 "A" "B"] ∧
  ∃ s' w,
    process (first_state ("A", "B") (txn_time 0 0)) (txn 0 5 "X" "X")
    = Ok (s', w) ∧
    edges s' !! ("X", "X") = Some (txn_time 0 5) ∧
    nodes s' !! "X"
    = Some (2 + Z.of_nat (incidence "X" (delete ("X", "X") (edges s')))) ∧
    (nodes (first_state ("A", "B") (txn_time 0 0)) !! "X" = None →
     nodes s' !! "X" = Some 2 ∧ edges_containing "X" (edges s') = 1%nat).
Proof.
  assert (proper_start [txn 0 0 "A" "B"]) as Hstart
    by (vm_compute; discriminate).
  split; [exact Hstart|].
  apply (self_pair_degree 1 [txn 0 0 "A" "B"]
           (first_state ("A", "B") (txn_time 0 0)) [format_median 1]
           (txn 0 5 "X" "X") "X" (txn_time 0 5) Hstart).
  - reflexivity.
  - vm_compute. reflexivity.
  - vm_compute. reflexivity.
  - vm_compute. reflexivity.
  - intros _. vm_compute. discriminate.
Defined.
